(** * GErr: error chains ([gerr::Error]) and the [mylib::Try] wrapper.

    A shallow embedding of [include/gerr/gerr.hpp] and of
    [examples/simpletry/try.hpp], with the properties of the
    specification proved (or refuted) on it.

    Modelling decisions, in the order of the source:

    - [gerr::Error] is [std::shared_ptr<details::IError>].  A pointer is
      [None] ([nullptr]) or [Some a], with [a] the address of an object
      in the store.  Objects are never freed in the model: a
      [shared_ptr] keeps its pointee alive as long as it is held, and
      every pointer the theorems speak of is held.
    - The store is a bump-allocated list of objects: [std::make_shared]
      appends one object, whose address is its index.
    - An object is a value of its dynamic class, with the fields of that
      class.  The virtual functions [Code], [Message] and [Cause] are
      defined by cases on the class, as the overrides are.
    - [char const*] is [option string]: [nullptr] or the bytes of the
      buffer pointed to.  Reading it as a C string stops at the first
      NUL ([cstr]).
    - [int] is [Z]; codes are only stored, compared and printed, so no
      arithmetic can leave the range.
    - [fmt::format] belongs to the {fmt} library.  It is a parameter of
      the development ([fmt_format]), as are the type of its arguments
      and the context type of the context-carrying error classes. *)

From Stdlib Require Import ZArith Ascii DecimalString.
From stdpp Require Import base option list strings gmap.

Set Default Proof Using "Type".

#[local] Open Scope Z_scope.
#[local] Open Scope nat_scope.

(** ** C strings and [std::to_string] *)

Module CStr.

(** The [char const*] view of a byte buffer: the bytes before the
    first NUL. *)
Fixpoint cstr (buf : string) : string :=
  match buf with
  | EmptyString => EmptyString
  | String c rest =>
      if Ascii.eqb c Ascii.zero then EmptyString else String c (cstr rest)
  end.

(** [std::string::c_str()]: a pointer to the buffer, never null. *)
Definition c_str (s : string) : option string := Some s.

(** [msg != nullptr && msg[0] != '\0'] *)
Definition has_text (msg : option string) : bool :=
  match msg with
  | None => false
  | Some EmptyString => false
  | Some (String c _) => negb (Ascii.eqb c Ascii.zero)
  end.

(** [s += msg] for a [char const* msg] that is not null. *)
Definition text (msg : option string) : string :=
  match msg with
  | None => EmptyString
  | Some buf => cstr buf
  end.

(** [std::to_string(int)]: decimal digits, with a leading minus sign
    for a negative number. *)
Definition to_string (c : Z) : string :=
  NilZero.string_of_int (Z.to_int c).

End CStr.
Export CStr.

(** ** The error chain core: [namespace gerr] *)

Module gerr.

(** An address in the store, and [gerr::Error]: a shared pointer to an
    error object, [None] being [nullptr]. *)
Abbreviation addr := nat.
Abbreviation Error := (option addr).

(** The result of running a loop of the source on the model: [Done x]
    when it returns [x]; [Stuck] when it dereferences an address that
    holds no object or exceeds the step bound, which the theorems
    below exclude for every well-formed store. *)
Inductive run (A : Type) : Type :=
  | Done (x : A)
  | Stuck.
Arguments Done {A} x.
Arguments Stuck {A}.

(** The classes of the library, as template arguments of [As] and
    [Is].  [Defined name] is the class a [DEFINE_*] macro declares
    under that name. *)
Inductive ErrClass : Type :=
  | IError_base
  | RawStrMessageError_t
  | MessageError_t
  | CodeRawStrMessageError_t
  | CodeMessageError_t
  | CodeSubError_t
  | RawStrMessageSubError_t
  | MessageSubError_t
  | CodeRawStrMessageSubError_t
  | CodeMessageSubError_t
  | Defined (name : string).

#[global] Instance ErrClass_eq_dec : EqDecision ErrClass.
Proof. solve_decision. Defined.

Section Core.

(** The context type of the context-carrying classes, the type of a
    format argument and [fmt::format] itself. *)
Variables ContextType FmtArg : Type.
Variable fmt_format : string → list FmtArg → string.

(** *** Class declarations: the arguments of the [DEFINE_*] macros *)

Record ErrorDecl : Type := DEFINE_ERROR {
  ErrTypE : string;
  ErrMessagE : option string
}.

Record CodeErrorDecl : Type := DEFINE_CODE_ERROR {
  codeErrTypE : string;
  codeErrCodE : Z;
  codeErrMessagE : option string
}.

(** [ctxArgs] is [__VA_ARGS__], a list of expressions over the
    variable [context]. *)
Record ContextErrorDecl : Type := DEFINE_CONTEXT_ERROR {
  ctxErrTypE : string;
  ctxErrFormaT : string;
  ctxArgs : ContextType → list FmtArg
}.

Record CodeContextErrorDecl : Type := DEFINE_CODE_CONTEXT_ERROR {
  codeCtxErrTypE : string;
  codeCtxErrCodE : Z;
  codeCtxErrFormaT : string;
  codeCtxArgs : ContextType → list FmtArg
}.

(** *** Objects

    One constructor per concrete class deriving from
    [details::IError], carrying the private members of the class. *)
Inductive IError : Type :=
  | RawStrMessageError (errorMessage_ : option string)
  | MessageError (errorMessage_ : string)
  | CodeRawStrMessageError (errorCode_ : Z) (errorMessage_ : option string)
  | CodeMessageError (errorCode_ : Z) (errorMessage_ : string)
  | CodeSubError (errorCode_ : Z) (causeError_ : Error)
  | RawStrMessageSubError (errorMessage_ : option string)
      (causeError_ : Error)
  | MessageSubError (errorMessage_ : string) (causeError_ : Error)
  | CodeRawStrMessageSubError (errorCode_ : Z)
      (errorMessage_ : option string) (causeError_ : Error)
  | CodeMessageSubError (errorCode_ : Z) (errorMessage_ : string)
      (causeError_ : Error)
  | DefinedError (d : ErrorDecl) (__causE__ : Error)
  | DefinedCodeError (d : CodeErrorDecl) (__causE__ : Error)
  | DefinedContextError (d : ContextErrorDecl) (__causE__ : Error)
      (__contexT__ : ContextType) (__messagE__ : string)
  | DefinedCodeContextError (d : CodeContextErrorDecl) (__causE__ : Error)
      (__contexT__ : ContextType) (__messagE__ : string).

(** [virtual int Code()]: 0 in [IError], overridden by the classes
    that carry a code. *)
Definition Code (o : IError) : Z :=
  match o with
  | RawStrMessageError _ => 0
  | MessageError _ => 0
  | CodeRawStrMessageError errorCode_ _ => errorCode_
  | CodeMessageError errorCode_ _ => errorCode_
  | CodeSubError errorCode_ _ => errorCode_
  | RawStrMessageSubError _ _ => 0
  | MessageSubError _ _ => 0
  | CodeRawStrMessageSubError errorCode_ _ _ => errorCode_
  | CodeMessageSubError errorCode_ _ _ => errorCode_
  | DefinedError _ _ => 0
  | DefinedCodeError d _ => codeErrCodE d
  | DefinedContextError _ _ _ _ => 0
  | DefinedCodeContextError d _ _ _ => codeCtxErrCodE d
  end.

(** [virtual char const* Message()] *)
Definition Message (o : IError) : option string :=
  match o with
  | RawStrMessageError errorMessage_ => errorMessage_
  | MessageError errorMessage_ => c_str errorMessage_
  | CodeRawStrMessageError _ errorMessage_ => errorMessage_
  | CodeMessageError _ errorMessage_ => c_str errorMessage_
  | CodeSubError _ _ => None
  | RawStrMessageSubError errorMessage_ _ => errorMessage_
  | MessageSubError errorMessage_ _ => c_str errorMessage_
  | CodeRawStrMessageSubError _ errorMessage_ _ => errorMessage_
  | CodeMessageSubError _ errorMessage_ _ => c_str errorMessage_
  | DefinedError d _ => ErrMessagE d
  | DefinedCodeError d _ => codeErrMessagE d
  | DefinedContextError _ _ _ __messagE__ => c_str __messagE__
  | DefinedCodeContextError _ _ _ __messagE__ => c_str __messagE__
  end.

(** [virtual Error Cause()] *)
Definition Cause (o : IError) : Error :=
  match o with
  | RawStrMessageError _ => None
  | MessageError _ => None
  | CodeRawStrMessageError _ _ => None
  | CodeMessageError _ _ => None
  | CodeSubError _ causeError_ => causeError_
  | RawStrMessageSubError _ causeError_ => causeError_
  | MessageSubError _ causeError_ => causeError_
  | CodeRawStrMessageSubError _ _ causeError_ => causeError_
  | CodeMessageSubError _ _ causeError_ => causeError_
  | DefinedError _ __causE__ => __causE__
  | DefinedCodeError _ __causE__ => __causE__
  | DefinedContextError _ __causE__ _ _ => __causE__
  | DefinedCodeContextError _ __causE__ _ _ => __causE__
  end.

(** [ContextType& Context()], a member of the context-carrying
    classes only. *)
Definition Context (o : IError) : option ContextType :=
  match o with
  | DefinedContextError _ _ __contexT__ _ => Some __contexT__
  | DefinedCodeContextError _ _ __contexT__ _ => Some __contexT__
  | _ => None
  end.

(** The dynamic class of an object. *)
Definition class_of (o : IError) : ErrClass :=
  match o with
  | RawStrMessageError _ => RawStrMessageError_t
  | MessageError _ => MessageError_t
  | CodeRawStrMessageError _ _ => CodeRawStrMessageError_t
  | CodeMessageError _ _ => CodeMessageError_t
  | CodeSubError _ _ => CodeSubError_t
  | RawStrMessageSubError _ _ => RawStrMessageSubError_t
  | MessageSubError _ _ => MessageSubError_t
  | CodeRawStrMessageSubError _ _ _ => CodeRawStrMessageSubError_t
  | CodeMessageSubError _ _ _ => CodeMessageSubError_t
  | DefinedError d _ => Defined (ErrTypE d)
  | DefinedCodeError d _ => Defined (codeErrTypE d)
  | DefinedContextError d _ _ _ => Defined (ctxErrTypE d)
  | DefinedCodeContextError d _ _ _ => Defined (codeCtxErrTypE d)
  end.

(** [std::is_base_of<Base, Derived>]: every class derives from
    [IError] and from itself, and from nothing else. *)
Definition is_base_of (Base Derived : ErrClass) : bool :=
  bool_decide (Base = IError_base) || bool_decide (Base = Derived).

(** *** The store *)

#[local] Abbreviation Heap := (list IError).

(** The program state: the objects allocated so far, and the
    function-local [static auto __valuE__] of each [E()], keyed by
    the class it belongs to; a class is absent until the first call
    initialises its variable. *)
Record State : Type := mkState {
  heap : Heap;
  statics : gmap string Error
}.

Definition init : State := mkState [] ∅.

(** [std::make_shared<ErrType>(args...)], the object being given
    already constructed. *)
Definition alloc (o : IError) (s : State) : State :=
  mkState (heap s ++ [o]) (statics s).

Definition make_shared (o : IError) (s : State) : addr * State :=
  (length (heap s), alloc o s).

(** [std::dynamic_pointer_cast<ExpectErr>(p)] for [p] pointing to
    [o] at [a]. *)
Definition dynamic_pointer_cast (ExpectErr : ErrClass) (a : addr)
    (o : IError) : Error :=
  if is_base_of ExpectErr (class_of o) then Some a else None.

(** *** Construction: [Make], [New], [Wrap] and the factories [E]

    A construction takes the state and returns the new pointer with the
    state in which the object exists. *)

(** [Make<ErrType>(args...)]: [make_shared], then the static cast to
    the base class. *)
Definition Make (o : IError) (s : State) : Error * State :=
  let (p, s') := make_shared o s in (Some p, s').

(** [New(char const* msg)] *)
Definition New (msg : option string) : State → Error * State :=
  Make (RawStrMessageError msg).

(** [New(formatStr, args...)], for [char const*] and [std::string]
    format strings alike. *)
Definition New_format (formatStr : string) (args : list FmtArg)
    : State → Error * State :=
  Make (MessageError (fmt_format formatStr args)).

(** [New(int code, char const* msg)] *)
Definition New_code (code : Z) (msg : option string)
    : State → Error * State :=
  Make (CodeRawStrMessageError code msg).

(** [New(int code, formatStr, args...)] *)
Definition New_code_format (code : Z) (formatStr : string)
    (args : list FmtArg) : State → Error * State :=
  Make (CodeMessageError code (fmt_format formatStr args)).

(** [Wrap(Error err, char const* msg)] *)
Definition Wrap (err : Error) (msg : option string) (s : State)
    : Error * State :=
  let (ptr, s') := make_shared (RawStrMessageSubError msg err) s in
  (Some ptr, s').

(** [Wrap(Error err, formatStr, args...)] *)
Definition Wrap_format (err : Error) (formatStr : string)
    (args : list FmtArg) : State → Error * State :=
  Make (MessageSubError (fmt_format formatStr args) err).

(** [Wrap(Error err, int code)] *)
Definition Wrap_code (err : Error) (code : Z) : State → Error * State :=
  Make (CodeSubError code err).

(** [Wrap(Error err, int code, char const* msg)] *)
Definition Wrap_code_msg (err : Error) (code : Z) (msg : option string)
    : State → Error * State :=
  Make (CodeRawStrMessageSubError code msg err).

(** [Wrap(Error err, int code, formatStr, args...)] *)
Definition Wrap_code_format (err : Error) (code : Z) (formatStr : string)
    (args : list FmtArg) : State → Error * State :=
  Make (CodeMessageSubError code (fmt_format formatStr args) err).

(** A function-local [static auto __valuE__ = init;] followed by
    [return __valuE__;]: the initialiser runs on the first call only. *)
Definition static_local (name : string) (initialiser : State → Error * State)
    (s : State) : Error * State :=
  match statics s !! name with
  | Some __valuE__ => (__valuE__, s)
  | None =>
      let (__valuE__, s') := initialiser s in
      (__valuE__, mkState (heap s') (<[name := __valuE__]> (statics s')))
  end.

(** [DEFINE_ERROR]: [E()] and [E(cause)]. *)
Definition E (d : ErrorDecl) : State → Error * State :=
  static_local (ErrTypE d) (Make (DefinedError d None)).

Definition E_cause (d : ErrorDecl) (__p__ : Error) : State → Error * State :=
  Make (DefinedError d __p__).

(** [DEFINE_CODE_ERROR]: [E()] and [E(cause)]. *)
Definition E_code (d : CodeErrorDecl) : State → Error * State :=
  static_local (codeErrTypE d) (Make (DefinedCodeError d None)).

Definition E_code_cause (d : CodeErrorDecl) (__p__ : Error)
    : State → Error * State :=
  Make (DefinedCodeError d __p__).

(** [DEFINE_CONTEXT_ERROR] and [DEFINE_CODE_CONTEXT_ERROR]:
    [E(context)].  The message is formatted here, once.  (The overloads
    of [E] that take a cause and a context hand [Make] the cause and the
    message but no context, which no constructor of the class accepts;
    they cannot be instantiated and have no model.) *)
Definition E_context (d : ContextErrorDecl) (context : ContextType)
    : State → Error * State :=
  Make (DefinedContextError d None context
          (fmt_format (ctxErrFormaT d) (ctxArgs d context))).

Definition E_code_context (d : CodeContextErrorDecl) (context : ContextType)
    : State → Error * State :=
  Make (DefinedCodeContextError d None context
          (fmt_format (codeCtxErrFormaT d) (codeCtxArgs d context))).

(** The overloads of [Wrap], by the arguments that follow [err]. *)
Inductive WrapArgs : Type :=
  | wrap_msg (msg : option string)
  | wrap_format (formatStr : string) (args : list FmtArg)
  | wrap_code (code : Z)
  | wrap_code_msg (code : Z) (msg : option string)
  | wrap_code_format (code : Z) (formatStr : string) (args : list FmtArg).

Definition Wrap_call (err : Error) (w : WrapArgs) : State → Error * State :=
  match w with
  | wrap_msg msg => Wrap err msg
  | wrap_format formatStr args => Wrap_format err formatStr args
  | wrap_code code => Wrap_code err code
  | wrap_code_msg code msg => Wrap_code_msg err code msg
  | wrap_code_format code formatStr args =>
      Wrap_code_format err code formatStr args
  end.

(** The object an overload of [Wrap] constructs. *)
Definition wrapper (err : Error) (w : WrapArgs) : IError :=
  match w with
  | wrap_msg msg => RawStrMessageSubError msg err
  | wrap_format formatStr args =>
      MessageSubError (fmt_format formatStr args) err
  | wrap_code code => CodeSubError code err
  | wrap_code_msg code msg => CodeRawStrMessageSubError code msg err
  | wrap_code_format code formatStr args =>
      CodeMessageSubError code (fmt_format formatStr args) err
  end.

(** Every call that constructs an error. *)
Inductive Construction : Type :=
  | call_Make (o : IError)
  | call_New (msg : option string)
  | call_New_format (formatStr : string) (args : list FmtArg)
  | call_New_code (code : Z) (msg : option string)
  | call_New_code_format (code : Z) (formatStr : string) (args : list FmtArg)
  | call_Wrap (err : Error) (w : WrapArgs)
  | call_E (d : ErrorDecl)
  | call_E_cause (d : ErrorDecl) (__p__ : Error)
  | call_E_code (d : CodeErrorDecl)
  | call_E_code_cause (d : CodeErrorDecl) (__p__ : Error)
  | call_E_context (d : ContextErrorDecl) (context : ContextType)
  | call_E_code_context (d : CodeContextErrorDecl) (context : ContextType).

Definition construct (c : Construction) : State → Error * State :=
  match c with
  | call_Make o => Make o
  | call_New msg => New msg
  | call_New_format formatStr args => New_format formatStr args
  | call_New_code code msg => New_code code msg
  | call_New_code_format code formatStr args =>
      New_code_format code formatStr args
  | call_Wrap err w => Wrap_call err w
  | call_E d => E d
  | call_E_cause d __p__ => E_cause d __p__
  | call_E_code d => E_code d
  | call_E_code_cause d __p__ => E_code_cause d __p__
  | call_E_context d context => E_context d context
  | call_E_code_context d context => E_code_context d context
  end.

(** The pointers a call receives. *)
Definition pointer_args (c : Construction) : list Error :=
  match c with
  | call_Make o => [Cause o]
  | call_Wrap err _ => [err]
  | call_E_cause _ __p__ => [__p__]
  | call_E_code_cause _ __p__ => [__p__]
  | _ => []
  end.

(** A sequence of calls, each result being dropped. *)
Fixpoint construct_all (cs : list Construction) (s : State) : State :=
  match cs with
  | [] => s
  | c :: cs' => construct_all cs' (construct c s).2
  end.

(** The pointers each call of a sequence receives are valid in the
    state in which the call is made: they were returned by earlier
    calls. *)
Fixpoint args_valid (cs : list Construction) (s : State) : Prop :=
  match cs with
  | [] => True
  | c :: cs' =>
      Forall (λ p, match p with
                   | None => True
                   | Some a => a < length (heap s)
                   end) (pointer_args c)
      ∧ args_valid cs' (construct c s).2
  end.

(** [p->Context()] for a pointer [p] to a context-carrying class, as
    [As] returns it. *)
Definition Context_at (h : Heap) (p : Error) : option ContextType :=
  match p with
  | Some a =>
      match h !! a with
      | Some o => Context o
      | None => None
      end
  | None => None
  end.

(** *** Inspection: [As], [Is], [AsCode], [IsCode], [String], [Code]

    Each loop of the source is a recursion on the number of steps still
    allowed; the functions allow as many steps as the store has
    objects, which no walk along [Cause] exceeds in a well-formed store
    ([loop_step] below). *)

(** [for (auto p = err; p != nullptr; p = p->Cause())] of [As]. *)
Fixpoint As_loop (ExpectErr : ErrClass) (h : Heap) (steps : nat) (p : Error)
    : run Error :=
  match p with
  | None => Done None
  | Some a =>
      match steps, h !! a with
      | S steps', Some o =>
          match dynamic_pointer_cast ExpectErr a o with
          | Some p1 => Done (Some p1)
          | None => As_loop ExpectErr h steps' (Cause o)
          end
      | _, _ => Stuck
      end
  end.

Definition As (ExpectErr : ErrClass) (h : Heap) (err : Error) : run Error :=
  match err with
  | None => Done None
  | Some _ => As_loop ExpectErr h (length h) err
  end.

(** [Is]: [As<ExpectErr>(err) != nullptr]. *)
Definition Is (ExpectErr : ErrClass) (h : Heap) (err : Error) : run bool :=
  match As ExpectErr h err with
  | Done p => Done (bool_decide (p ≠ None))
  | Stuck => Stuck
  end.

(** The loop of [AsCode]. *)
Fixpoint AsCode_loop (code : Z) (h : Heap) (steps : nat) (p : Error)
    : run Error :=
  match p with
  | None => Done None
  | Some a =>
      match steps, h !! a with
      | S steps', Some o =>
          if (Code o =? code)%Z then Done (Some a)
          else AsCode_loop code h steps' (Cause o)
      | _, _ => Stuck
      end
  end.

Definition AsCode (code : Z) (h : Heap) (err : Error) : run Error :=
  match err with
  | None => Done None
  | Some _ => AsCode_loop code h (length h) err
  end.

(** [IsCode]: [AsCode(code, err) != nullptr]. *)
Definition IsCode (code : Z) (h : Heap) (err : Error) : run bool :=
  match AsCode code h err with
  | Done p => Done (bool_decide (p ≠ None))
  | Stuck => Stuck
  end.

(** The body of the loop of [String], up to [p = p->Cause()]: what one
    node appends to [s]. *)
Definition String_step (s : string) (o : IError) : string :=
  let c := Code o in
  let msg := Message o in
  let hasMsg := has_text msg in
  if negb (c =? 0)%Z && hasMsg then
    ((s +:+ to_string c) +:+ ":") +:+ text msg
  else if (c =? 0)%Z && negb hasMsg then
    s +:+ "<EMPTY>"
  else if (c =? 0)%Z then
    s +:+ text msg
  else
    s +:+ to_string c.

(** [for (auto p = err;;)] of [String]; [p] is not null on entry. *)
Fixpoint String_loop (h : Heap) (steps : nat) (p : addr) (s : string)
    : run string :=
  match steps, h !! p with
  | S steps', Some o =>
      let s := String_step s o in
      match Cause o with
      | Some p' => String_loop h steps' p' (s +:+ ":")
      | None => Done s
      end
  | _, _ => Stuck
  end.

Definition String (h : Heap) (err : Error) : run string :=
  match err with
  | None => Done "<NIL>"
  | Some p => String_loop h (length h) p ""
  end.

(** The loop of [gerr::Code(err, defaultErrCode)].  The free function
    is [Code_of] here, the name [Code] being taken by the virtual
    function it calls. *)
Fixpoint Code_loop (defaultErrCode : Z) (h : Heap) (steps : nat) (p : Error)
    : run Z :=
  match p with
  | None => Done defaultErrCode
  | Some a =>
      match steps, h !! a with
      | S steps', Some o =>
          let c := Code o in
          if negb (c =? 0)%Z then Done c
          else Code_loop defaultErrCode h steps' (Cause o)
      | _, _ => Stuck
      end
  end.

Definition Code_of (h : Heap) (err : Error) (defaultErrCode : Z) : run Z :=
  match err with
  | None => Done 0%Z
  | Some _ => Code_loop defaultErrCode h (length h) err
  end.

(** [Code(err)], with the default argument [defaultErrCode = -1]. *)
Definition Code_of_default (h : Heap) (err : Error) : run Z :=
  Code_of h err (-1)%Z.

(** *** Well-formed stores and the chain of an error *)

(** The cause of the object at [a], if any, lies below [a]: it existed
    when the object was constructed. *)
Definition cause_below (a : addr) (o : IError) : bool :=
  match Cause o with
  | None => true
  | Some c => bool_decide (c < a)
  end.

Fixpoint heap_ok_from (a : addr) (h : Heap) : bool :=
  match h with
  | [] => true
  | o :: h' => cause_below a o && heap_ok_from (S a) h'
  end.

Definition heap_ok (h : Heap) : bool := heap_ok_from 0 h.

(** One more than the address, 0 for [nullptr]: the number of steps a
    walk from the pointer can take in a well-formed store. *)
Definition bound (p : Error) : nat :=
  match p with
  | None => 0
  | Some a => S a
  end.

(** A pointer that is null or points into the store. *)
Definition valid (h : Heap) (err : Error) : bool :=
  match err with
  | None => true
  | Some a => bool_decide (a < length h)
  end.

(** A pointer that points to an object of the store. *)
Definition live (h : Heap) (err : Error) : Prop :=
  0 < bound err ≤ length h.

(** Every initialised [__valuE__] points to an object: [Make] gave it
    its value. *)
Definition statics_ok (s : State) : bool :=
  bool_decide (map_Forall (λ _ __valuE__, live (heap s) __valuE__)
                 (statics s)).

Definition state_ok (s : State) : bool :=
  heap_ok (heap s) && statics_ok s.

(** The addresses met from [p] along [Cause], outermost first. *)
Fixpoint chain_from (h : Heap) (steps : nat) (p : Error) : list addr :=
  match steps, p with
  | S steps', Some a =>
      match h !! a with
      | Some o => a :: chain_from h steps' (Cause o)
      | None => []
      end
  | _, _ => []
  end.

Definition chain (h : Heap) (err : Error) : list addr :=
  chain_from h (length h) err.

(** The objects at the addresses of a list. *)
Definition objects (h : Heap) (l : list addr) : list IError :=
  omap (λ a, h !! a) l.

(** The objects of the chain, outermost first. *)
Definition nodes (h : Heap) (err : Error) : list IError :=
  objects h (chain h err).

(** The first address of a list whose object satisfies [P]. *)
Definition first_at (h : Heap) (P : IError → bool) (l : list addr) : Error :=
  List.find (λ a, from_option P false (h !! a)) l.

(** *** The properties as the specification words them *)

(** [IsCode(code, err)] as specified: some node of the chain has the
    code, and the code is not 0. *)
Definition spec_IsCode (code : Z) (h : Heap) (err : Error) : Prop :=
  ∃ o, o ∈ nodes h err ∧ Code o = code ∧ code ≠ 0%Z.

(** The rendering rule of [String].  The message of a node is present
    when it is neither absent nor empty. *)
Definition message_present (o : IError) : bool := has_text (Message o).

Definition spec_segment (o : IError) : string :=
  match negb (Code o =? 0)%Z, message_present o with
  | true, true => to_string (Code o) +:+ ":" +:+ text (Message o)
  | true, false => to_string (Code o)
  | false, true => text (Message o)
  | false, false => "<EMPTY>"
  end.

(** The segments joined with [":"]. *)
Fixpoint spec_join (segments : list string) : string :=
  match segments with
  | [] => ""
  | [seg] => seg
  | seg :: rest => seg +:+ ":" +:+ spec_join rest
  end.

Definition spec_String (h : Heap) (err : Error) : string :=
  match err with
  | None => "<NIL>"
  | Some _ => spec_join (spec_segment <$> nodes h err)
  end.

End Core.

(** A store of objects with the given context and argument types. *)
Abbreviation Heap ContextType FmtArg := (list (IError ContextType FmtArg)).

(** The context and argument types are read off the other arguments. *)
Arguments RawStrMessageError {ContextType FmtArg}.
Arguments MessageError {ContextType FmtArg}.
Arguments CodeRawStrMessageError {ContextType FmtArg}.
Arguments CodeMessageError {ContextType FmtArg}.
Arguments CodeSubError {ContextType FmtArg}.
Arguments RawStrMessageSubError {ContextType FmtArg}.
Arguments MessageSubError {ContextType FmtArg}.
Arguments CodeRawStrMessageSubError {ContextType FmtArg}.
Arguments CodeMessageSubError {ContextType FmtArg}.
Arguments DefinedError {ContextType FmtArg}.
Arguments DefinedCodeError {ContextType FmtArg}.
Arguments DefinedContextError {ContextType FmtArg}.
Arguments DefinedCodeContextError {ContextType FmtArg}.
Arguments Code {ContextType FmtArg}.
Arguments Message {ContextType FmtArg}.
Arguments Cause {ContextType FmtArg}.
Arguments Context {ContextType FmtArg}.
Arguments class_of {ContextType FmtArg}.
Arguments make_shared {ContextType FmtArg}.
Arguments dynamic_pointer_cast {ContextType FmtArg}.
Arguments Make {ContextType FmtArg}.
Arguments New {ContextType FmtArg}.
Arguments New_format {ContextType FmtArg}.
Arguments New_code {ContextType FmtArg}.
Arguments New_code_format {ContextType FmtArg}.
Arguments Wrap {ContextType FmtArg}.
Arguments Wrap_format {ContextType FmtArg}.
Arguments Wrap_code {ContextType FmtArg}.
Arguments Wrap_code_msg {ContextType FmtArg}.
Arguments Wrap_code_format {ContextType FmtArg}.
Arguments static_local {ContextType FmtArg}.
Arguments E {ContextType FmtArg}.
Arguments E_cause {ContextType FmtArg}.
Arguments E_code {ContextType FmtArg}.
Arguments E_code_cause {ContextType FmtArg}.
Arguments E_context {ContextType FmtArg}.
Arguments E_code_context {ContextType FmtArg}.
Arguments As_loop {ContextType FmtArg}.
Arguments As {ContextType FmtArg}.
Arguments Is {ContextType FmtArg}.
Arguments AsCode_loop {ContextType FmtArg}.
Arguments AsCode {ContextType FmtArg}.
Arguments IsCode {ContextType FmtArg}.
Arguments String_step {ContextType FmtArg}.
Arguments String_loop {ContextType FmtArg}.
Arguments String {ContextType FmtArg}.
Arguments Code_loop {ContextType FmtArg}.
Arguments Code_of {ContextType FmtArg}.
Arguments Code_of_default {ContextType FmtArg}.
Arguments cause_below {ContextType FmtArg}.
Arguments heap_ok_from {ContextType FmtArg}.
Arguments heap_ok {ContextType FmtArg}.
Arguments valid {ContextType FmtArg}.
Arguments statics_ok {ContextType FmtArg}.
Arguments state_ok {ContextType FmtArg}.
Arguments chain_from {ContextType FmtArg}.
Arguments chain {ContextType FmtArg}.
Arguments nodes {ContextType FmtArg}.
Arguments first_at {ContextType FmtArg}.
Arguments message_present {ContextType FmtArg}.
Arguments spec_segment {ContextType FmtArg}.
Arguments spec_String {ContextType FmtArg}.
Arguments args_valid {ContextType FmtArg}.
Arguments objects {ContextType FmtArg}.
Arguments alloc {ContextType FmtArg}.
Arguments wrapper {ContextType FmtArg}.
Arguments live {ContextType FmtArg}.
Arguments spec_IsCode {ContextType FmtArg}.
Arguments Context_at {ContextType FmtArg}.
Arguments construct_all {ContextType FmtArg}.
Arguments pointer_args {ContextType FmtArg}.
Arguments construct {ContextType FmtArg}.
Arguments call_E_code_context {ContextType FmtArg}.
Arguments call_E_context {ContextType FmtArg}.
Arguments call_E_code_cause {ContextType FmtArg}.
Arguments call_E_code {ContextType FmtArg}.
Arguments call_E_cause {ContextType FmtArg}.
Arguments call_E {ContextType FmtArg}.
Arguments call_Wrap {ContextType FmtArg}.
Arguments call_New_code_format {ContextType FmtArg}.
Arguments call_New_code {ContextType FmtArg}.
Arguments call_New_format {ContextType FmtArg}.
Arguments call_New {ContextType FmtArg}.
Arguments call_Make {ContextType FmtArg}.
Arguments Wrap_call {ContextType FmtArg}.
Arguments wrap_code_format {FmtArg}.
Arguments wrap_code_msg {FmtArg}.
Arguments wrap_code {FmtArg}.
Arguments wrap_format {FmtArg}.
Arguments wrap_msg {FmtArg}.
Arguments heap {ContextType FmtArg}.
Arguments statics {ContextType FmtArg}.
Arguments mkState {ContextType FmtArg}.
Arguments DEFINE_CONTEXT_ERROR {ContextType FmtArg}.
Arguments DEFINE_CODE_CONTEXT_ERROR {ContextType FmtArg}.
Arguments ctxErrTypE {ContextType FmtArg}.
Arguments ctxErrFormaT {ContextType FmtArg}.
Arguments ctxArgs {ContextType FmtArg}.
Arguments codeCtxErrTypE {ContextType FmtArg}.
Arguments codeCtxErrCodE {ContextType FmtArg}.
Arguments codeCtxErrFormaT {ContextType FmtArg}.
Arguments codeCtxArgs {ContextType FmtArg}.

End gerr.

(** ** The fallible result wrapper: [mylib::Try] *)

Module mylib.
Section Try.

(** [ValueType], with [ValueType{}], its value-initialised object. *)
Variable ValueType : Type.
Variable ValueType_init : ValueType.

(** [Try<ValueType>] derives from [std::pair<ValueType, gerr::Error>]. *)
Record Try : Type := std_pair {
  first : ValueType;
  second : gerr.Error
}.

(** [Try(gerr::Error err)], by copy, by move, or from a pointer to a
    derived class. *)
Definition Try_error (err : gerr.Error) : Try := std_pair ValueType_init err.

(** [Try(ValueType val)] *)
Definition Try_value (val : ValueType) : Try := std_pair val None.

(** [Try(Try& src)] and [Try(Try&& src)] *)
Definition Try_copy (src : Try) : Try := std_pair (first src) (second src).

Definition IsSuccess (t : Try) : bool := bool_decide (second t = None).
Definition IsFailure (t : Try) : bool := bool_decide (second t ≠ None).

(** [explicit operator bool()] *)
Definition to_bool (t : Try) : bool := IsSuccess t.

Definition Value (t : Try) : ValueType := first t.
Definition Error (t : Try) : gerr.Error := second t.

(** The member functions that change [*this] return its new state. *)
Definition ClearValue (t : Try) : Try := std_pair ValueType_init (second t).
Definition ClearError (t : Try) : Try := std_pair (first t) None.

(** [Assign(gerr::Error err)], in its four overloads. *)
Definition Assign_error (t : Try) (err : gerr.Error) : Try :=
  let t := if IsSuccess t then ClearValue t else t in
  std_pair (first t) err.

(** [Assign(Try src)] *)
Definition Assign_try (t src : Try) : Try :=
  let t := std_pair (first src) (second t) in
  std_pair (first t) (second src).

(** [Assign(ValueType newValue)] *)
Definition Assign_value (t : Try) (newValue : ValueType) : Try :=
  let t := if IsFailure t then ClearError t else t in
  std_pair newValue (second t).

(** [operator=] calls [Assign] and returns [*this]. *)
Definition assign_error_op (t : Try) (err : gerr.Error) : Try :=
  Assign_error t err.
Definition assign_value_op (t : Try) (arg : ValueType) : Try :=
  Assign_value t arg.
Definition assign_try_op (t other : Try) : Try := Assign_try t other.

(** Exactly one side is populated: a wrapper that holds an error holds
    no value but the value-initialised one. *)
Definition exclusive (t : Try) : Prop :=
  second t ≠ None → first t = ValueType_init.

End Try.

(** The value type is read off the other arguments. *)
Arguments std_pair {ValueType}.
Arguments first {ValueType}.
Arguments second {ValueType}.
Arguments Try_error {ValueType}.
Arguments Try_value {ValueType}.
Arguments Try_copy {ValueType}.
Arguments IsSuccess {ValueType}.
Arguments IsFailure {ValueType}.
Arguments to_bool {ValueType}.
Arguments Value {ValueType}.
Arguments Error {ValueType}.
Arguments ClearValue {ValueType}.
Arguments ClearError {ValueType}.
Arguments Assign_error {ValueType}.
Arguments Assign_try {ValueType}.
Arguments Assign_value {ValueType}.
Arguments assign_error_op {ValueType}.
Arguments assign_value_op {ValueType}.
Arguments assign_try_op {ValueType}.
Arguments exclusive {ValueType}.

End mylib.

(** ** The declarations of [examples/defineerr/myapi.hpp]

    Concrete classes and a concrete formatter, on which the functions
    above can be run. *)

Module fake.

(** What the examples pass to [fmt::format]. *)
Inductive FmtArg : Type :=
  | arg_int (i : Z)
  | arg_str (s : string).

Definition show (a : FmtArg) : string :=
  match a with
  | arg_int i => to_string i
  | arg_str s => s
  end.

(** A stand-in for [fmt::format], enough for the format strings of the
    examples: each [{}] is replaced by the next argument, and arguments
    left over are ignored. *)
Fixpoint format (formatStr : string) (args : list FmtArg) : string :=
  match formatStr with
  | String "{"%char (String "}"%char rest as tail) =>
      match args with
      | a :: args' => show a +:+ format rest args'
      | [] => String "{"%char (format tail [])
      end
  | String c rest => String c (format rest args)
  | EmptyString => EmptyString
  end.

Record LERandErrorContext : Type := mkLERandErrorContext {
  randNum1 : Z;
  randNum2 : Z
}.

Definition ErrArgumentZero : gerr.ErrorDecl :=
  gerr.DEFINE_ERROR "ErrArgumentZero" (Some "Argument is zero").

Definition ErrArgumentNeg : gerr.CodeErrorDecl :=
  gerr.DEFINE_CODE_ERROR "ErrArgumentNeg" 1000001
    (Some "Argument is negative").

Definition ErrLERandNum1 : gerr.ContextErrorDecl LERandErrorContext FmtArg :=
  gerr.DEFINE_CONTEXT_ERROR "ErrLERandNum1"
    "Random num is illegal, rand val1: {}, rand val2: {}"
    (λ context, [arg_int (randNum1 context); arg_int (randNum2 context)]).

Definition ErrLERandNum2
    : gerr.CodeContextErrorDecl LERandErrorContext FmtArg :=
  gerr.DEFINE_CODE_CONTEXT_ERROR "ErrLERandNum2" 1000002
    "random num is illegal, rand val1: {}, rand val2: {}"
    (λ context, [arg_int (randNum1 context); arg_int (randNum2 context)]).

Definition State := gerr.State LERandErrorContext FmtArg.
Definition init : State := gerr.init LERandErrorContext FmtArg.

(** [examples/simpleerr/main.cpp], run on an argument that is not a
    number: [CheckArgumentValue] returns a new error, which
    [CheckArguments] wraps. *)
Definition CheckArgumentValue : gerr.Error * State :=
  gerr.New_format format "conv exception:{}" [arg_str "X"; arg_str "stoi"]
    init.

Definition CheckArguments : gerr.Error * State :=
  gerr.Wrap_format format CheckArgumentValue.1
    "CheckArgumentValue(argv[1]({}))" [arg_str "X"] CheckArgumentValue.2.

(** [MyFakeAPI::Call(-1)] in the state above, and its error wrapped
    once more by a caller. *)
Definition Call_neg : gerr.Error * State :=
  gerr.E_code ErrArgumentNeg CheckArguments.2.

Definition Call_neg_wrapped : gerr.Error * State :=
  gerr.Wrap Call_neg.1 (Some "call failed") Call_neg.2.

End fake.

(** ** Layers of wraps, reachable wrappers and the example programs *)

Section Wraps.

Context {ContextType FmtArg : Type}.
Variable fmt_format : string → list FmtArg → string.

(** The overloads of [New], by their arguments, and the object each
    constructs. *)
Inductive NewArgs : Type :=
  | new_msg (msg : option string)
  | new_format (formatStr : string) (args : list FmtArg)
  | new_code (code : Z) (msg : option string)
  | new_code_format (code : Z) (formatStr : string) (args : list FmtArg).

Definition New_call (n : NewArgs)
    : gerr.State ContextType FmtArg
      → gerr.Error * gerr.State ContextType FmtArg :=
  match n with
  | new_msg msg => gerr.New msg
  | new_format formatStr args => gerr.New_format fmt_format formatStr args
  | new_code code msg => gerr.New_code code msg
  | new_code_format code formatStr args =>
      gerr.New_code_format fmt_format code formatStr args
  end.

Definition New_object (n : NewArgs) : gerr.IError ContextType FmtArg :=
  match n with
  | new_msg msg => gerr.RawStrMessageError msg
  | new_format formatStr args =>
      gerr.MessageError (fmt_format formatStr args)
  | new_code code msg => gerr.CodeRawStrMessageError code msg
  | new_code_format code formatStr args =>
      gerr.CodeMessageError code (fmt_format formatStr args)
  end.

(** The code and the message an overload of [New] or [Wrap] is given:
    0 and [nullptr] when it takes none. *)
Definition New_code_arg (n : NewArgs) : Z :=
  match n with
  | new_msg _ | new_format _ _ => 0%Z
  | new_code code _ | new_code_format code _ _ => code
  end.

Definition New_message_arg (n : NewArgs) : option string :=
  match n with
  | new_msg msg | new_code _ msg => msg
  | new_format formatStr args | new_code_format _ formatStr args =>
      Some (fmt_format formatStr args)
  end.

Definition Wrap_code_arg (w : gerr.WrapArgs FmtArg) : Z :=
  match w with
  | gerr.wrap_msg _ | gerr.wrap_format _ _ => 0%Z
  | gerr.wrap_code code | gerr.wrap_code_msg code _
  | gerr.wrap_code_format code _ _ => code
  end.

Definition Wrap_message_arg (w : gerr.WrapArgs FmtArg) : option string :=
  match w with
  | gerr.wrap_code _ => None
  | gerr.wrap_msg msg | gerr.wrap_code_msg _ msg => msg
  | gerr.wrap_format formatStr args
  | gerr.wrap_code_format _ formatStr args =>
      Some (fmt_format formatStr args)
  end.

(** The segment [String] renders for a code and a message. *)
Definition render (code : Z) (msg : option string) : string :=
  if negb (code =? 0)%Z then
    if has_text msg then to_string code +:+ ":" +:+ text msg
    else to_string code
  else
    if has_text msg then text msg else "<EMPTY>".

(** The four inspection functions at one pointer. *)
Definition inspect (ExpectErr : gerr.ErrClass) (code d : Z)
    (h : gerr.Heap ContextType FmtArg) (p : gerr.Error)
    : gerr.run gerr.Error * gerr.run gerr.Error * gerr.run string
      * gerr.run Z :=
  (gerr.As ExpectErr h p, gerr.AsCode code h p, gerr.String h p,
   gerr.Code_of h p d).

(** [Wrap] applied by each layer of a program to the error it received
    from the layer below: the head of [ws] is the innermost wrap. *)
Fixpoint Wrap_all (ws : list (gerr.WrapArgs FmtArg)) (err : gerr.Error)
    (s : gerr.State ContextType FmtArg)
    : gerr.Error * gerr.State ContextType FmtArg :=
  match ws with
  | [] => (err, s)
  | w :: ws' =>
      let wrapped := gerr.Wrap_call fmt_format err w s in
      Wrap_all ws' wrapped.1 wrapped.2
  end.

End Wraps.

Arguments NewArgs : clear implicits.
Arguments new_msg {FmtArg}.
Arguments new_format {FmtArg}.
Arguments new_code {FmtArg}.
Arguments new_code_format {FmtArg}.
Arguments New_call {ContextType FmtArg}.
Arguments New_object {ContextType FmtArg}.

Section TryStates.

Context {ValueType : Type}.
Variable ValueType_init : ValueType.

(** The wrappers a program obtains from the constructors and the member
    functions of [Try] that change it.  (The references returned by
    [Value()] and [Error()], and the public members of [std::pair], let
    a caller write either side directly; such writes are not part of
    it.) *)
Inductive Try_reachable : mylib.Try ValueType → Prop :=
  | reach_Try_value val : Try_reachable (mylib.Try_value val)
  | reach_Try_error err :
      Try_reachable (mylib.Try_error ValueType_init err)
  | reach_Try_copy src :
      Try_reachable src → Try_reachable (mylib.Try_copy src)
  | reach_ClearValue t :
      Try_reachable t → Try_reachable (mylib.ClearValue ValueType_init t)
  | reach_ClearError t :
      Try_reachable t → Try_reachable (mylib.ClearError t)
  | reach_Assign_error t err :
      Try_reachable t →
      Try_reachable (mylib.Assign_error ValueType_init t err)
  | reach_Assign_value t newValue :
      Try_reachable t → Try_reachable (mylib.Assign_value t newValue)
  | reach_Assign_try t src :
      Try_reachable t → Try_reachable src →
      Try_reachable (mylib.Assign_try t src).

End TryStates.

(** [examples/simpletry/main.cpp] *)
Module simpletry.

(** What an expression of the program evaluates to: a value, or
    nothing the language defines. *)
Inductive evaluation (A : Type) : Type :=
  | Defined_value (x : A)
  | Undefined_behaviour.
Arguments Defined_value {A} x.
Arguments Undefined_behaviour {A}.

Section SafeDiv.

Context {ContextType FmtArg : Type}.

(** The values of [int]. *)
Definition INT_MIN : Z := (- 2 ^ 31)%Z.
Definition INT_MAX : Z := (2 ^ 31 - 1)%Z.
Definition is_int (i : Z) : Prop := (INT_MIN ≤ i ≤ INT_MAX)%Z.

(** [a / b] on [int]: the quotient truncated toward zero.  The
    behaviour is undefined when [b] is 0, and when the quotient is not
    an [int], which for [int] operands is the one case of [INT_MIN]
    divided by -1. *)
Definition int_div (a b : Z) : evaluation Z :=
  if (b =? 0)%Z then Undefined_behaviour
  else if (a =? INT_MIN)%Z && (b =? -1)%Z then Undefined_behaviour
  else Defined_value (Z.quot a b).

(** [SafeDiv(int a, int b)]: the error of [New("div 0")] converted to a
    [Try<int>], or the quotient converted to one. *)
Definition SafeDiv (a b : Z) (s : gerr.State ContextType FmtArg)
    : evaluation (mylib.Try Z * gerr.State ContextType FmtArg) :=
  if (b =? 0)%Z then
    let (err, s') := gerr.New (Some "div 0") s in
    Defined_value (mylib.Try_error 0%Z err, s')
  else
    match int_div a b with
    | Defined_value q => Defined_value (mylib.Try_value q, s)
    | Undefined_behaviour => Undefined_behaviour
    end.

End SafeDiv.
End simpletry.

(** [examples/defineerr/myapi.hpp] *)
Module MyFakeAPI.

(** [MyFakeAPI::Call(x)], with the two numbers [dist(rd)] draws given
    as [r1] and [r2], and [fmt::format] as a parameter. *)
Definition Call (fmt_format : string → list fake.FmtArg → string)
    (r1 r2 : Z) (x : Z) (s : fake.State) : gerr.Error * fake.State :=
  if (x <? 0)%Z then gerr.E_code fake.ErrArgumentNeg s
  else if (x =? 0)%Z then gerr.E fake.ErrArgumentZero s
  else if (x <=? r1)%Z then
    gerr.E_context fmt_format fake.ErrLERandNum1
      (fake.mkLERandErrorContext r1 r2) s
  else if (x <=? r2)%Z then
    gerr.E_code_context fmt_format fake.ErrLERandNum2
      (fake.mkLERandErrorContext r1 r2) s
  else (None, s).

(** The variable [__valuE__] of [E()] for the class [name], once
    initialised, points to an object of that class with the code of
    the class and no cause. *)
Definition singleton_ok (name : string) (code : Z) (s : fake.State) : bool :=
  match gerr.statics s !! name with
  | None => true
  | Some None => false
  | Some (Some a) =>
      match gerr.heap s !! a with
      | Some o =>
          bool_decide (gerr.class_of o = gerr.Defined name)
          && (gerr.Code o =? code)%Z
          && bool_decide (gerr.Cause o = None)
      | None => false
      end
  end.

(** The states of a program whose only factories are those of
    [myapi.hpp]. *)
Definition state_ok (s : fake.State) : bool :=
  gerr.state_ok s
  && singleton_ok "ErrArgumentNeg" 1000001 s
  && singleton_ok "ErrArgumentZero" 0 s.

End MyFakeAPI.

(** [examples/simpleerr/main.cpp]: the two functions that check the
    arguments.  ([main] itself writes [*err] to [std::cerr], for which
    the library declares no [operator<<]; it has no model.) *)
Module simpleerr.
Section Main.

(** [fmt::format], and [std::stoi] reduced to what the program uses of
    it: [stoi arg] is [None] when the call returns, and [Some what]
    when it throws an exception whose [what()] is [what]. *)
Variable fmt_format : string → list fake.FmtArg → string.
Variable stoi : string → option string.

Definition CheckArgumentValue (arg : string) (s : fake.State)
    : gerr.Error * fake.State :=
  match stoi arg with
  | Some what =>
      gerr.New_format fmt_format "conv exception:{}"
        [fake.arg_str arg; fake.arg_str what] s
  | None => (None, s)
  end.

(** [argv] holds [argc] strings, so that [argv[1]] exists when [argc]
    is 2. *)
Definition CheckArguments (argc : Z) (argv : list string) (s : fake.State)
    : gerr.Error * fake.State :=
  if negb (argc =? 2)%Z then
    gerr.New_format fmt_format "argc({}) != 2" [fake.arg_int argc] s
  else
    let argv1 := default "" (argv !! 1) in
    let (err, s') := CheckArgumentValue argv1 s in
    match err with
    | Some _ =>
        gerr.Wrap_format fmt_format err "CheckArgumentValue(argv[1]({}))"
          [fake.arg_str argv1] s'
    | None => (None, s')
    end.

End Main.
End simpleerr.

(** ** [fmt::format] as a function that may throw *)

Section Throwing.

Context {ContextType FmtArg : Type}.

(** [fmt::format] as the library calls it: [Some] of the message when
    it returns, [None] when it throws [fmt::format_error].  The library
    catches nothing, so the exception leaves the function that called
    [fmt::format]. *)
Variable try_format : string → list FmtArg → option string.

(** The message of a call that returns. *)
Definition format_value (formatStr : string) (args : list FmtArg) : string :=
  default "" (try_format formatStr args).

(** The call of [fmt::format] a construction makes, if any.  It is an
    argument of [Make], evaluated before [Make] is entered. *)
Definition format_call (c : gerr.Construction ContextType FmtArg)
    : option (string * list FmtArg) :=
  match c with
  | gerr.call_New_format formatStr args
  | gerr.call_New_code_format _ formatStr args
  | gerr.call_Wrap _ (gerr.wrap_format formatStr args)
  | gerr.call_Wrap _ (gerr.wrap_code_format _ formatStr args) =>
      Some (formatStr, args)
  | gerr.call_E_context d context =>
      Some (gerr.ctxErrFormaT d, gerr.ctxArgs d context)
  | gerr.call_E_code_context d context =>
      Some (gerr.codeCtxErrFormaT d, gerr.codeCtxArgs d context)
  | _ => None
  end.

(** How a construction ends: it returns a pointer and the new state,
    or the exception of [fmt::format] leaves it, in the state given. *)
Inductive Outcome : Type :=
  | Returns (r : gerr.Error * gerr.State ContextType FmtArg)
  | Throws (s : gerr.State ContextType FmtArg).

Definition construct_or_throw (c : gerr.Construction ContextType FmtArg)
    (s : gerr.State ContextType FmtArg) : Outcome :=
  match format_call c with
  | Some (formatStr, args) =>
      match try_format formatStr args with
      | Some _ => Returns (gerr.construct format_value c s)
      | None => Throws s
      end
  | None => Returns (gerr.construct format_value c s)
  end.

End Throwing.

Arguments Outcome : clear implicits.

(** [fmt::format] of the {fmt} library on the format strings of the
    examples, whose replacement fields are all [{}]: each field takes
    the next argument, arguments left over are ignored, and a field for
    which no argument is left makes [fmt::format] throw
    [fmt::format_error]. *)
Module fmt.

(** The replacement fields of a format string; [{{] is an escaped
    brace. *)
Fixpoint fields (formatStr : string) : nat :=
  match formatStr with
  | String "{"%char (String "{"%char rest) => fields rest
  | String "{"%char (String "}"%char rest) => S (fields rest)
  | String _ rest => fields rest
  | EmptyString => 0
  end.

Definition format (formatStr : string) (args : list fake.FmtArg)
    : option string :=
  if fields formatStr <=? length args
  then Some (fake.format formatStr args)
  else None.

End fmt.

(** * Properties *)

(** ** Strings *)

Section Strings.

Lemma to_string_nonempty (c : Z) : to_string c ≠ "".
Proof.
  unfold to_string. destruct (Z.to_int c) as [d|d]; simpl; [|done].
  destruct d; done.
Qed.

Lemma append_cons (c : ascii) (s t : string) :
  String c s +:+ t = String c (s +:+ t).
Proof. reflexivity. Qed.

Lemma append_nil_r (s : string) : s +:+ "" = s.
Proof.
  induction s as [|c s IH]; [done|]. by rewrite append_cons, IH.
Qed.

Lemma append_assoc (s t u : string) : (s +:+ t) +:+ u = s +:+ (t +:+ u).
Proof.
  induction s as [|c s IH]; [done|]. by rewrite !append_cons, IH.
Qed.

Lemma append_nonempty_l (s t : string) : s ≠ "" → s +:+ t ≠ "".
Proof. destruct s; [done|]. intros _. by rewrite append_cons. Qed.

Lemma has_text_nonempty (msg : option string) :
  has_text msg = true → text msg ≠ "".
Proof.
  destruct msg as [[|c buf]|]; simpl; try done.
  destruct (Ascii.eqb c Ascii.zero); done.
Qed.

End Strings.

(** ** Well-formed stores *)

Section Store.

Context {ContextType FmtArg : Type}.
Implicit Types (h : gerr.Heap ContextType FmtArg).
Implicit Types (o : gerr.IError ContextType FmtArg).
Implicit Types (s : gerr.State ContextType FmtArg).
Implicit Types (p err : gerr.Error) (a : gerr.addr).

Lemma heap_ok_from_lookup h :
  ∀ n, gerr.heap_ok_from n h = true →
  ∀ i o, h !! i = Some o → gerr.cause_below (n + i) o = true.
Proof.
  induction h as [|x h IH]; intros n Hok i o Hi; [done|].
  simpl in Hok. apply andb_prop in Hok as [Hx Hh].
  destruct i as [|i]; simpl in Hi.
  - injection Hi as <-. by rewrite Nat.add_0_r.
  - rewrite Nat.add_succ_r. by apply (IH (S n)).
Qed.

Lemma heap_ok_from_intro h :
  ∀ n, (∀ i o, h !! i = Some o → gerr.cause_below (n + i) o = true) →
  gerr.heap_ok_from n h = true.
Proof.
  induction h as [|x h IH]; intros n Hall; [done|].
  simpl. apply andb_true_intro. split.
  - specialize (Hall 0 x eq_refl). by rewrite Nat.add_0_r in Hall.
  - apply IH. intros i o Hi. specialize (Hall (S i) o Hi).
    by rewrite Nat.add_succ_r in Hall.
Qed.

(** In a well-formed store the cause of an object lies below it. *)
Lemma heap_ok_cause h a o :
  gerr.heap_ok h = true → h !! a = Some o → gerr.bound (gerr.Cause o) ≤ a.
Proof.
  intros Hok Ha. pose proof (heap_ok_from_lookup h 0 Hok a o Ha) as Hc.
  unfold gerr.cause_below in Hc. simpl in Hc.
  destruct (gerr.Cause o) as [c|]; simpl; [|lia].
  apply bool_decide_eq_true in Hc. lia.
Qed.

Lemma valid_bound h p : gerr.valid h p = true ↔ gerr.bound p ≤ length h.
Proof.
  destruct p as [a|]; simpl; [|split; [lia|done]].
  rewrite bool_decide_eq_true. lia.
Qed.

Lemma valid_lookup h a :
  gerr.valid h (Some a) = true → ∃ o, h !! a = Some o.
Proof.
  intros Hv. apply valid_bound in Hv. simpl in Hv.
  apply lookup_lt_is_Some_2. lia.
Qed.

(** Allocation keeps the store well formed when the cause of the new
    object is a valid pointer. *)
Lemma heap_ok_alloc h o :
  gerr.heap_ok h = true → gerr.valid h (gerr.Cause o) = true →
  gerr.heap_ok (h ++ [o]) = true.
Proof.
  intros Hok Hv. apply heap_ok_from_intro. intros i x Hi. simpl.
  destruct (decide (i < length h)) as [Hlt|Hge].
  - rewrite lookup_app_l in Hi by done.
    apply (heap_ok_from_lookup h 0 Hok i x Hi).
  - rewrite lookup_app_r in Hi by lia.
    destruct (i - length h) as [|k] eqn:Hk; simpl in Hi; [|done].
    injection Hi as <-. assert (i = length h) as -> by lia.
    unfold gerr.cause_below. apply valid_bound in Hv.
    destruct (gerr.Cause o) as [c|]; [|done].
    simpl in Hv. apply bool_decide_eq_true. lia.
Qed.

(** *** The chain *)

(** With steps enough for the pointer, the walk is the same whatever
    the number of steps. *)
Lemma chain_from_steps h :
  gerr.heap_ok h = true →
  ∀ n m p, gerr.bound p ≤ n → gerr.bound p ≤ m →
  gerr.chain_from h n p = gerr.chain_from h m p.
Proof.
  intros Hok. induction n as [|n IH]; intros m p Hn Hm.
  - destruct p; simpl in Hn; [lia|]. by destruct m.
  - destruct p as [a|]; [|by destruct m].
    destruct m as [|m]; simpl in Hm; [lia|]. simpl.
    destruct (h !! a) as [o|] eqn:Ha; [|done].
    pose proof (heap_ok_cause h a o Hok Ha). simpl in Hn.
    f_equal. apply IH; lia.
Qed.

(** The chain of a non-null pointer: its address, then the chain of its
    cause. *)
Lemma chain_unfold h a o :
  gerr.heap_ok h = true → h !! a = Some o →
  gerr.chain h (Some a) = a :: gerr.chain h (gerr.Cause o).
Proof.
  intros Hok Ha. unfold gerr.chain.
  pose proof (lookup_lt_Some _ _ _ Ha) as Hlt.
  pose proof (heap_ok_cause h a o Hok Ha) as Hc.
  destruct (length h) as [|n] eqn:Hn; [lia|].
  rewrite (chain_from_steps h Hok (S n) n (gerr.Cause o)) by lia.
  simpl. by rewrite Ha.
Qed.

Lemma chain_null h : gerr.chain h None = [].
Proof. unfold gerr.chain. by destruct (length h). Qed.

(** Every address of a chain holds an object. *)
Lemma chain_from_live h n p a :
  a ∈ gerr.chain_from h n p → is_Some (h !! a).
Proof.
  revert p. induction n as [|n IH]; intros p Hin; simpl in Hin.
  - by apply elem_of_nil in Hin.
  - destruct p as [b|]; [|by apply elem_of_nil in Hin].
    destruct (h !! b) as [o|] eqn:Hb; [|by apply elem_of_nil in Hin].
    apply elem_of_cons in Hin as [->|Hin]; [by eexists|by eapply IH].
Qed.

(** Allocation changes no chain of the old store. *)
Lemma chain_alloc h o p :
  gerr.heap_ok h = true → gerr.valid h p = true →
  gerr.chain (h ++ [o]) p = gerr.chain h p.
Proof.
  intros Hok Hv. apply valid_bound in Hv. unfold gerr.chain.
  rewrite length_app. simpl.
  assert (∀ n q, gerr.bound q ≤ n → gerr.bound q ≤ length h →
    gerr.chain_from (h ++ [o]) n q = gerr.chain_from h n q) as Hsame.
  { induction n as [|n IH]; intros q Hn Hq; [done|].
    destruct q as [a|]; [|done]. simpl in *.
    rewrite lookup_app_l by lia.
    destruct (h !! a) as [x|] eqn:Ha; [|done].
    pose proof (heap_ok_cause h a x Hok Ha). f_equal. apply IH; lia. }
  rewrite Hsame by lia. apply chain_from_steps; [done|lia|lia].
Qed.

End Store.

(** ** The loops of the inspection functions *)

Section Loops.

Context {ContextType FmtArg : Type}.
Implicit Types (h : gerr.Heap ContextType FmtArg).
Implicit Types (o : gerr.IError ContextType FmtArg).
Implicit Types (P : gerr.IError ContextType FmtArg → bool).
Implicit Types (p err : gerr.Error) (a : gerr.addr).

(** [first_at] returns the first address that matches: the addresses
    before it do not match. *)
Lemma first_at_Some h P l a :
  gerr.first_at h P l = Some a →
  ∃ l1 l2 o, l = l1 ++ a :: l2 ∧ h !! a = Some o ∧ P o = true ∧
    ∀ b, b ∈ l1 → from_option P false (h !! b) = false.
Proof.
  induction l as [|x l IH]; [done|]. unfold gerr.first_at. simpl.
  destruct (from_option P false (h !! x)) eqn:Hx.
  - intros [= ->]. destruct (h !! a) as [o|] eqn:Ha; [|done].
    exists [], l, o. split_and!; try done. intros b Hb.
    by apply elem_of_nil in Hb.
  - intros Hfind. destruct (IH Hfind) as (l1 & l2 & o & -> & Ha & HP & Hl1).
    exists (x :: l1), l2, o. split_and!; try done.
    intros b [->|Hb]%elem_of_cons; [done|by apply Hl1].
Qed.

Lemma first_at_None h P l :
  gerr.first_at h P l = None →
  ∀ a, a ∈ l → from_option P false (h !! a) = false.
Proof.
  induction l as [|x l IH]; intros Hfind a Ha.
  - by apply elem_of_nil in Ha.
  - unfold gerr.first_at in Hfind. simpl in Hfind.
    destruct (from_option P false (h !! x)) eqn:Hx; [done|].
    apply elem_of_cons in Ha as [->|Ha]; [done|by apply IH].
Qed.

Lemma first_at_is_Some h P l :
  is_Some (gerr.first_at h P l) ↔
  ∃ a o, a ∈ l ∧ h !! a = Some o ∧ P o = true.
Proof.
  split.
  - intros [a Ha]. destruct (first_at_Some _ _ _ _ Ha)
      as (l1 & l2 & o & -> & Hlook & HP & _).
    exists a, o. split_and!; try done. apply elem_of_app. right. left.
  - intros (a & o & Hin & Hlook & HP).
    destruct (gerr.first_at h P l) as [b|] eqn:Hfind; [by eexists|].
    pose proof (first_at_None _ _ _ Hfind a Hin) as Hno.
    rewrite Hlook in Hno. simpl in Hno. congruence.
Qed.

(** An object is a node of the chain exactly when its address is in
    the chain. *)
Lemma elem_of_nodes h err o :
  o ∈ gerr.nodes h err ↔ ∃ a, a ∈ gerr.chain h err ∧ h !! a = Some o.
Proof. unfold gerr.nodes, gerr.objects. apply list_elem_of_omap. Qed.

Lemma objects_cons h a o l :
  h !! a = Some o → gerr.objects h (a :: l) = o :: gerr.objects h l.
Proof. intros Ha. unfold gerr.objects. simpl. by rewrite Ha. Qed.

Lemma chain_from_S h steps a o :
  h !! a = Some o →
  gerr.chain_from h (S steps) (Some a) =
  a :: gerr.chain_from h steps (gerr.Cause o).
Proof. intros Ha. simpl. by rewrite Ha. Qed.

(** One step of a loop: the pointer is live and its cause is within
    the remaining steps. *)
Lemma loop_step h steps a :
  gerr.heap_ok h = true → S a ≤ S steps → S a ≤ length h →
  ∃ o, h !! a = Some o ∧ gerr.bound (gerr.Cause o) ≤ steps
       ∧ gerr.bound (gerr.Cause o) ≤ length h.
Proof.
  intros Hok Hs Hh. destruct (lookup_lt_is_Some_2 h a) as [o Ha]; [lia|].
  exists o. pose proof (heap_ok_cause h a o Hok Ha). split_and!; [done|lia..].
Qed.

(** The common start of the proofs about a loop that walks the chain:
    induction on the steps, then one step from a live pointer. *)
Ltac walk Hok steps p IH o Ha :=
  let Hs := fresh "Hs" in
  let Hh := fresh "Hh" in
  induction steps as [|steps IH]; intros p Hs Hh;
  [ destruct p; simpl in Hs; [lia|done]
  | destruct p as [a|]; [|done];
    destruct (loop_step _ _ _ Hok Hs Hh) as (o & Ha & ? & ?);
    simpl; rewrite Ha ].

Lemma As_loop_chain ExpectErr h :
  gerr.heap_ok h = true →
  ∀ steps p, gerr.bound p ≤ steps → gerr.bound p ≤ length h →
  gerr.As_loop ExpectErr h steps p =
  gerr.Done (gerr.first_at h
    (λ o, gerr.is_base_of ExpectErr (gerr.class_of o))
    (gerr.chain_from h steps p)).
Proof.
  intros Hok steps. walk Hok steps p IH o Ha.
  unfold gerr.dynamic_pointer_cast, gerr.first_at. simpl. rewrite Ha. simpl.
  destruct (gerr.is_base_of ExpectErr (gerr.class_of o)); [done|].
  by apply IH.
Qed.

Lemma AsCode_loop_chain code h :
  gerr.heap_ok h = true →
  ∀ steps p, gerr.bound p ≤ steps → gerr.bound p ≤ length h →
  gerr.AsCode_loop code h steps p =
  gerr.Done (gerr.first_at h (λ o, (gerr.Code o =? code)%Z)
    (gerr.chain_from h steps p)).
Proof.
  intros Hok steps. walk Hok steps p IH o Ha.
  unfold gerr.first_at. simpl. rewrite Ha. simpl.
  destruct (gerr.Code o =? code)%Z; [done|]. by apply IH.
Qed.

Lemma Code_loop_chain defaultErrCode h :
  gerr.heap_ok h = true →
  ∀ steps p, gerr.bound p ≤ steps → gerr.bound p ≤ length h →
  gerr.Code_loop defaultErrCode h steps p =
  gerr.Done
    (match List.find (λ o, negb (gerr.Code o =? 0)%Z)
             (gerr.objects h (gerr.chain_from h steps p)) with
     | Some o => gerr.Code o
     | None => defaultErrCode
     end).
Proof.
  intros Hok steps. walk Hok steps p IH o Ha.
  unfold gerr.objects. simpl. rewrite Ha. simpl.
  destruct (gerr.Code o =? 0)%Z; [|done]. by apply IH.
Qed.

End Loops.

(** ** Rendering *)

Section Rendering.

Context {ContextType FmtArg : Type}.
Implicit Types (h : gerr.Heap ContextType FmtArg).
Implicit Types (o : gerr.IError ContextType FmtArg).
Implicit Types (p err : gerr.Error) (a : gerr.addr).

(** What one pass of the loop body appends is the segment of the
    node. *)
Lemma String_step_segment (s : string) o :
  gerr.String_step s o = s +:+ gerr.spec_segment o.
Proof.
  unfold gerr.String_step, gerr.spec_segment, gerr.message_present.
  destruct (gerr.Code o =? 0)%Z, (has_text (gerr.Message o)); simpl;
    by rewrite ?append_assoc.
Qed.

Lemma spec_segment_nonempty o : gerr.spec_segment o ≠ "".
Proof.
  unfold gerr.spec_segment, gerr.message_present.
  destruct (gerr.Code o =? 0)%Z, (has_text (gerr.Message o)) eqn:Hmsg;
    simpl; try done.
  - by apply has_text_nonempty.
  - apply append_nonempty_l, to_string_nonempty.
  - apply to_string_nonempty.
Qed.

Lemma spec_join_cons (seg : string) (rest : list string) :
  rest ≠ [] →
  gerr.spec_join (seg :: rest) = seg +:+ ":" +:+ gerr.spec_join rest.
Proof. by destruct rest. Qed.

Lemma spec_join_nonempty (segments : list string) :
  segments ≠ [] → Forall (λ seg, seg ≠ "") segments →
  gerr.spec_join segments ≠ "".
Proof.
  destruct segments as [|seg rest]; [done|]. intros _ Hall.
  apply Forall_cons in Hall as [Hseg _].
  destruct rest; [done|]. rewrite spec_join_cons by done.
  by apply append_nonempty_l.
Qed.

Lemma chain_from_null h steps : gerr.chain_from h steps None = [].
Proof. by destruct steps. Qed.

Lemma String_loop_S h steps a (s : string) o :
  h !! a = Some o →
  gerr.String_loop h (S steps) a s =
  match gerr.Cause o with
  | Some p' => gerr.String_loop h steps p' (gerr.String_step s o +:+ ":")
  | None => gerr.Done (gerr.String_step s o)
  end.
Proof. intros Ha. simpl. by rewrite Ha. Qed.

Lemma String_loop_chain h :
  gerr.heap_ok h = true →
  ∀ steps a (s : string), S a ≤ steps → S a ≤ length h →
  gerr.String_loop h steps a s =
  gerr.Done (s +:+ gerr.spec_join (gerr.spec_segment <$>
    gerr.objects h (gerr.chain_from h steps (Some a)))).
Proof.
  intros Hok. induction steps as [|steps IH]; intros a s Hs Hh; [lia|].
  destruct (loop_step h steps a Hok Hs Hh) as (o & Ha & Hcs & Hch).
  rewrite (String_loop_S _ _ _ _ _ Ha), (chain_from_S _ _ _ _ Ha),
    (objects_cons _ _ _ _ Ha), fmap_cons, String_step_segment.
  destruct (gerr.Cause o) as [p'|] eqn:Hcause; simpl in Hcs, Hch.
  - rewrite IH by done.
    destruct steps as [|steps']; [lia|].
    destruct (lookup_lt_is_Some_2 h p') as [o' Hp']; [lia|].
    rewrite (chain_from_S _ _ _ _ Hp'), (objects_cons _ _ _ _ Hp'), fmap_cons.
    rewrite (spec_join_cons (gerr.spec_segment o)) by done.
    by rewrite !append_assoc.
  - by rewrite chain_from_null.
Qed.

End Rendering.

(** ** Construction *)

Section Construction.

Context {ContextType FmtArg : Type}.
Variable fmt_format : string → list FmtArg → string.
Implicit Types (h : gerr.Heap ContextType FmtArg).
Implicit Types (o : gerr.IError ContextType FmtArg).
Implicit Types (s : gerr.State ContextType FmtArg).
Implicit Types (c : gerr.Construction ContextType FmtArg).
Implicit Types (cs : list (gerr.Construction ContextType FmtArg)).
Implicit Types (w : gerr.WrapArgs FmtArg).
Implicit Types (p err : gerr.Error) (a : gerr.addr).

Lemma Make_alloc o s :
  gerr.Make o s = (Some (length (gerr.heap s)), gerr.alloc o s).
Proof. reflexivity. Qed.

Lemma Wrap_call_alloc err w s :
  gerr.Wrap_call fmt_format err w s =
  (Some (length (gerr.heap s)), gerr.alloc (gerr.wrapper fmt_format err w) s).
Proof. by destruct w. Qed.

Lemma wrapper_Cause err w :
  gerr.Cause (gerr.wrapper (ContextType:=ContextType) fmt_format err w) = err.
Proof. by destruct w. Qed.

(** A function-local static either has its value already, or is given
    the pointer to a new object. *)
Lemma static_local_cases name o s :
  (∃ v, gerr.statics s !! name = Some v ∧
        gerr.static_local name (gerr.Make o) s = (v, s)) ∨
  (gerr.statics s !! name = None ∧
   gerr.static_local name (gerr.Make o) s =
     (Some (length (gerr.heap s)),
      gerr.mkState (gerr.heap s ++ [o])
        (<[name := Some (length (gerr.heap s))]> (gerr.statics s)))).
Proof.
  unfold gerr.static_local.
  destruct (gerr.statics s !! name) as [v|]; [left; by exists v|by right].
Qed.

(** Every construction allocates one object whose cause is null or one
    of the pointers it received, or returns an initialised static. *)
Lemma construct_cases c s :
  (∃ o, gerr.construct fmt_format c s =
          (Some (length (gerr.heap s)), gerr.alloc o s) ∧
        (gerr.Cause o = None ∨ gerr.Cause o ∈ gerr.pointer_args c) ∧
        (∀ o', c = gerr.call_Make o' → o = o')) ∨
  (∃ name v, gerr.statics s !! name = Some v ∧
             gerr.construct fmt_format c s = (v, s)) ∨
  (∃ name o, gerr.statics s !! name = None ∧ gerr.Cause o = None ∧
     gerr.construct fmt_format c s =
       (Some (length (gerr.heap s)),
        gerr.mkState (gerr.heap s ++ [o])
          (<[name := Some (length (gerr.heap s))]> (gerr.statics s)))).
Proof.
  destruct c as [o|msg|f args|code msg|code f args|err w|d|d p|d|d p|d ctx
                |d ctx]; simpl.
  - left. exists o. split_and!; [done|right; by left|by intros ? [= ->]].
  - left. eexists. split_and!; [done|by left|done].
  - left. eexists. split_and!; [done|by left|done].
  - left. eexists. split_and!; [done|by left|done].
  - left. eexists. split_and!; [done|by left|done].
  - left. exists (gerr.wrapper fmt_format err w).
    split_and!; [apply Wrap_call_alloc| |done].
    right. rewrite wrapper_Cause. by left.
  - right. destruct (static_local_cases (gerr.ErrTypE d)
      (gerr.DefinedError d None) s) as [(v & Hv & Heq)|[Hn Heq]].
    + left. by exists (gerr.ErrTypE d), v.
    + right. by exists (gerr.ErrTypE d), (gerr.DefinedError d None).
  - left. eexists. split_and!; [done|right; by left|done].
  - right. destruct (static_local_cases (gerr.codeErrTypE d)
      (gerr.DefinedCodeError d None) s) as [(v & Hv & Heq)|[Hn Heq]].
    + left. by exists (gerr.codeErrTypE d), v.
    + right. by exists (gerr.codeErrTypE d), (gerr.DefinedCodeError d None).
  - left. eexists. split_and!; [done|right; by left|done].
  - left. eexists. split_and!; [done|by left|done].
  - left. eexists. split_and!; [done|by left|done].
Qed.

Lemma state_ok_split s :
  gerr.state_ok s = true ↔
  gerr.heap_ok (gerr.heap s) = true ∧
  ∀ name v, gerr.statics s !! name = Some v → gerr.live (gerr.heap s) v.
Proof.
  unfold gerr.state_ok, gerr.statics_ok.
  rewrite andb_true_iff, bool_decide_eq_true. done.
Qed.

Lemma live_Some h p : gerr.live h p → ∃ a o, p = Some a ∧ h !! a = Some o.
Proof.
  unfold gerr.live. destruct p as [a|]; simpl; [|lia]. intros Ha.
  destruct (lookup_lt_is_Some_2 h a) as [o Ho]; [lia|]. by exists a, o.
Qed.

Lemma live_alloc h o p : gerr.live h p → gerr.live (h ++ [o]) p.
Proof. unfold gerr.live. rewrite length_app. simpl. lia. Qed.

Lemma live_new h o : gerr.live (h ++ [o]) (Some (length h)).
Proof. unfold gerr.live. rewrite length_app. simpl. lia. Qed.

(** A construction whose pointer arguments are valid keeps the state
    well formed. *)
Lemma construct_state_ok c s :
  gerr.state_ok s = true →
  Forall (λ p, gerr.valid (gerr.heap s) p = true) (gerr.pointer_args c) →
  gerr.state_ok (gerr.construct fmt_format c s).2 = true.
Proof.
  intros [Hheap Hstat]%state_ok_split Hargs.
  destruct (construct_cases c s)
    as [(o & -> & Hcause & _)|[(name & v & Hv & ->)|(name & o & Hn & Hc & ->)]];
    simpl; apply state_ok_split; simpl.
  - split.
    + apply heap_ok_alloc; [done|]. destruct Hcause as [->|Hin]; [done|].
      by apply (proj1 (Forall_forall _ _) Hargs).
    + intros n v Hv. apply live_alloc. by apply (Hstat n).
  - done.
  - split.
    + apply heap_ok_alloc; [done|]. by rewrite Hc.
    + intros n v Hv. destruct (decide (name = n)) as [->|Hne].
      * rewrite lookup_insert_eq in Hv. injection Hv as <-. apply live_new.
      * rewrite lookup_insert_ne in Hv by done. apply live_alloc.
        by apply (Hstat n).
Qed.

(** Every state reached from the initial one by constructions is well
    formed. *)
Lemma state_ok_init : gerr.state_ok (gerr.init ContextType FmtArg) = true.
Proof.
  apply state_ok_split. split; [done|]. intros name v Hv.
  simpl in Hv. by rewrite lookup_empty in Hv.
Qed.

Lemma construct_all_state_ok cs s :
  gerr.state_ok s = true → gerr.args_valid fmt_format cs s →
  gerr.state_ok (gerr.construct_all fmt_format cs s) = true.
Proof.
  revert s. induction cs as [|c cs IH]; intros s Hok Hargs; [done|].
  destruct Hargs as [Hc Hcs]. simpl. apply IH; [|done].
  apply construct_state_ok; [done|].
  eapply Forall_impl; [exact Hc|]. intros [a|] Ha; [|done].
  by apply bool_decide_eq_true.
Qed.

(** A construction keeps the objects of the store and initialised
    statics as they are. *)
Lemma construct_heap_lookup c s a o :
  gerr.heap s !! a = Some o →
  gerr.heap (gerr.construct fmt_format c s).2 !! a = Some o.
Proof.
  intros Ha.
  destruct (construct_cases c s)
    as [(x & -> & _)|[(name & v & Hv & ->)|(name & x & Hn & Hc & ->)]];
    simpl; [|done|]; by apply lookup_app_l_Some.
Qed.

Lemma construct_statics_lookup c s name v :
  gerr.statics s !! name = Some v →
  gerr.statics (gerr.construct fmt_format c s).2 !! name = Some v.
Proof.
  intros Hname.
  destruct (construct_cases c s)
    as [(x & -> & _)|[(n & v' & Hv & ->)|(n & x & Hn & Hc & ->)]];
    simpl; [done..|].
  rewrite lookup_insert_ne; [done|]. intros ->. congruence.
Qed.

Lemma construct_all_heap_lookup cs s a o :
  gerr.heap s !! a = Some o →
  gerr.heap (gerr.construct_all fmt_format cs s) !! a = Some o.
Proof.
  revert s. induction cs as [|c cs IH]; intros s Ha; [done|].
  simpl. by apply IH, construct_heap_lookup.
Qed.

Lemma construct_all_statics_lookup cs s name v :
  gerr.statics s !! name = Some v →
  gerr.statics (gerr.construct_all fmt_format cs s) !! name = Some v.
Proof.
  revert s. induction cs as [|c cs IH]; intros s Ha; [done|].
  simpl. by apply IH, construct_statics_lookup.
Qed.

End Construction.

(** ** The inspection functions on a well-formed store *)

Section Inspection.

Context {ContextType FmtArg : Type}.
Variable fmt_format : string → list FmtArg → string.
Implicit Types (h : gerr.Heap ContextType FmtArg).
Implicit Types (o : gerr.IError ContextType FmtArg).
Implicit Types (P : gerr.IError ContextType FmtArg → bool).
Implicit Types (s : gerr.State ContextType FmtArg).
Implicit Types (w : gerr.WrapArgs FmtArg).
Implicit Types (p err : gerr.Error) (a : gerr.addr).

Lemma As_chain ExpectErr h err :
  gerr.heap_ok h = true → gerr.valid h err = true →
  gerr.As ExpectErr h err =
  gerr.Done (gerr.first_at h
    (λ o, gerr.is_base_of ExpectErr (gerr.class_of o)) (gerr.chain h err)).
Proof.
  intros Hok Hv. destruct err as [a|]; simpl.
  - apply As_loop_chain; [done| |]; by apply valid_bound in Hv.
  - by rewrite chain_null.
Qed.

Lemma AsCode_chain code h err :
  gerr.heap_ok h = true → gerr.valid h err = true →
  gerr.AsCode code h err =
  gerr.Done (gerr.first_at h (λ o, (gerr.Code o =? code)%Z)
    (gerr.chain h err)).
Proof.
  intros Hok Hv. destruct err as [a|]; simpl.
  - apply AsCode_loop_chain; [done| |]; by apply valid_bound in Hv.
  - by rewrite chain_null.
Qed.

(** [Is] is true exactly when [As] returns a pointer that is not
    null. *)
Lemma Is_As ExpectErr h err :
  gerr.Is ExpectErr h err = gerr.Done true ↔
  ∃ a, gerr.As ExpectErr h err = gerr.Done (Some a).
Proof.
  unfold gerr.Is. destruct (gerr.As ExpectErr h err) as [[a|]|].
  - split; [by exists a|done].
  - split; [done|by intros [a [=]]].
  - split; [done|by intros [a [=]]].
Qed.

(** Some node of the chain satisfies [P] exactly when [first_at] finds
    one. *)
Lemma first_at_nodes h P err :
  gerr.first_at h P (gerr.chain h err) ≠ None ↔
  ∃ o, o ∈ gerr.nodes h err ∧ P o = true.
Proof.
  rewrite not_eq_None_Some, first_at_is_Some. split.
  - intros (a & o & Hin & Ha & HP). exists o. split; [|done].
    apply elem_of_nodes. by exists a.
  - intros (o & (a & Hin & Ha)%elem_of_nodes & HP). by exists a, o.
Qed.

(** The addresses of a chain lie in the store, so that an allocation
    does not change what [first_at] finds among them. *)
Lemma first_at_alloc h o P l :
  (∀ a, a ∈ l → is_Some (h !! a)) →
  gerr.first_at (h ++ [o]) P l = gerr.first_at h P l.
Proof.
  intros Hlive. unfold gerr.first_at. induction l as [|a l IH]; [done|].
  simpl. destruct (Hlive a) as [x Ha]; [by left|].
  rewrite (lookup_app_l_Some _ _ _ _ Ha), Ha. simpl.
  destruct (P x); [done|]. apply IH. intros b Hb. apply Hlive. by right.
Qed.

(** [As] on a new object whose class is not the expected one is [As]
    on the cause of the object. *)
Lemma As_alloc_skip ExpectErr h o :
  gerr.heap_ok h = true → gerr.valid h (gerr.Cause o) = true →
  gerr.is_base_of ExpectErr (gerr.class_of o) = false →
  gerr.As ExpectErr (h ++ [o]) (Some (length h)) =
  gerr.As ExpectErr h (gerr.Cause o).
Proof.
  intros Hok Hv Hclass.
  pose proof (heap_ok_alloc h o Hok Hv) as Hok'.
  assert ((h ++ [o]) !! length h = Some o) as Hnew.
  { rewrite lookup_app_r by lia. by rewrite Nat.sub_diag. }
  rewrite (As_chain _ (h ++ [o])), (As_chain _ h) by
    (try done; apply valid_bound; rewrite length_app; simpl; lia).
  rewrite (chain_unfold _ _ _ Hok' Hnew), chain_alloc by done.
  unfold gerr.first_at at 1. simpl. rewrite Hnew. simpl. rewrite Hclass.
  f_equal. apply first_at_alloc. intros a Ha.
  by apply chain_from_live in Ha.
Qed.

(** C1, as amended.  On a well-formed store, [AsCode(code, err)]
    returns the first node of the chain of [err], outermost first,
    whose [Code()] equals [code], and [nullptr] when [err] is null or
    no node has that code; [IsCode(code, err)] is true exactly when
    some node of the chain has [Code() == code].  The value 0 is
    compared like any other: it matches a node whose code is 0. *)
Theorem AsCode_first_equal_code (code : Z) h err :
  gerr.heap_ok h = true → gerr.valid h err = true →
  ∃ r, gerr.AsCode code h err = gerr.Done r
    ∧ gerr.IsCode code h err = gerr.Done (bool_decide (r ≠ None))
    ∧ r = gerr.first_at h (λ o, (gerr.Code o =? code)%Z) (gerr.chain h err)
    ∧ (gerr.IsCode code h err = gerr.Done true ↔
       ∃ o, o ∈ gerr.nodes h err ∧ gerr.Code o = code)
    ∧ (err = None → r = None)
    ∧ ((∀ o, o ∈ gerr.nodes h err → gerr.Code o ≠ code) → r = None).
Proof.
  intros Hok Hv. eexists. split; [by apply AsCode_chain|].
  unfold gerr.IsCode. rewrite AsCode_chain by done.
  split_and!; try done.
  - split.
    + intros [= Hr]. apply bool_decide_eq_true, first_at_nodes in Hr.
      destruct Hr as (o & Hin & Hc). exists o. split; [done|].
      by apply Z.eqb_eq.
    + intros (o & Hin & Hc). f_equal. apply bool_decide_eq_true.
      apply first_at_nodes. exists o. split; [done|]. by apply Z.eqb_eq.
  - intros ->. by rewrite chain_null.
  - intros Hno.
    destruct (gerr.first_at _ _ (gerr.chain h err)) as [a|] eqn:Hr; [|done].
    assert (gerr.first_at h (λ o, (gerr.Code o =? code)%Z) (gerr.chain h err)
            ≠ None) as Hsome by (by rewrite Hr).
    apply first_at_nodes in Hsome as (o & Hin & Hc).
    apply Z.eqb_eq in Hc. by destruct (Hno o Hin).
Qed.

(** C4.  On a well-formed store, [As<ExpectErr>(err)] returns the first
    node of the chain of [err], outermost first, that is of class
    [ExpectErr]: the nodes before it are not of that class.  It returns
    [nullptr] when [err] is null or no node of the chain is of the
    class.  When an overload of [Wrap] wraps [err] in a node that is
    not of class [ExpectErr], [As] on the result is [As] on [err]: a
    node of the class deeper in the chain is found. *)
Theorem As_first_of_class (ExpectErr : gerr.ErrClass) s err :
  gerr.heap_ok (gerr.heap s) = true → gerr.valid (gerr.heap s) err = true →
  let h := gerr.heap s in
  let of_class := λ o, gerr.is_base_of ExpectErr (gerr.class_of o) in
  ∃ r, gerr.As ExpectErr h err = gerr.Done r
    ∧ r = gerr.first_at h of_class (gerr.chain h err)
    ∧ (err = None → r = None)
    ∧ (∀ a, r = Some a →
       ∃ before after o, gerr.chain h err = before ++ a :: after
         ∧ h !! a = Some o ∧ of_class o = true
         ∧ ∀ b, b ∈ before → ∃ ob, h !! b = Some ob ∧ of_class ob = false)
    ∧ (r = None ↔ ∀ o, o ∈ gerr.nodes h err → of_class o = false)
    ∧ (∀ w, of_class (gerr.wrapper fmt_format err w) = false →
       let wrapped := gerr.Wrap_call fmt_format err w s in
       gerr.As ExpectErr (gerr.heap wrapped.2) wrapped.1 = gerr.Done r).
Proof.
  intros Hok Hv h of_class. eexists. split; [by apply As_chain|].
  split_and!; try done.
  - intros ->. by rewrite chain_null.
  - intros a Hr. destruct (first_at_Some _ _ _ _ Hr)
      as (l1 & l2 & o & Hl & Ha & HP & Hl1).
    exists l1, l2, o. split_and!; try done. intros b Hb.
    assert (is_Some (h !! b)) as [ob Hob].
    { apply (chain_from_live h (length h) err). unfold gerr.chain in Hl.
      rewrite Hl. apply elem_of_app. by left. }
    exists ob. split; [done|]. specialize (Hl1 b Hb). by rewrite Hob in Hl1.
  - split.
    + intros Hr o Hin. destruct (of_class o) eqn:HP; [|done].
      assert (gerr.first_at h of_class (gerr.chain h err) ≠ None) as Hne
        by (apply first_at_nodes; by exists o).
      done.
    + intros Hno.
      destruct (gerr.first_at h of_class (gerr.chain h err)) as [a|] eqn:Hr;
        [|done].
      assert (gerr.first_at h of_class (gerr.chain h err) ≠ None) as Hne
        by (by rewrite Hr).
      apply first_at_nodes in Hne as (o & Hin & HP).
      rewrite (Hno o Hin) in HP. done.
  - intros w Hw wrapped. subst wrapped. rewrite Wrap_call_alloc.
    unfold gerr.alloc. cbn [fst snd gerr.heap].
    rewrite As_alloc_skip; rewrite ?wrapper_Cause; try done.
    by apply As_chain.
Qed.

(** C2.  [String] returns on every well-formed store.  [String(nullptr)]
    is ["<NIL>"].  For a non-null [err] the result is the segments of the
    nodes of the chain, outermost first, joined with [":"], where the
    segment of a node is [spec_segment]: code, colon and message when
    the code is not 0 and the message is present; the code alone when
    only the code is; the message alone when only the message is;
    ["<EMPTY>"] when neither is.  That result is not the empty
    string. *)
Theorem String_renders_chain h err :
  gerr.heap_ok h = true → gerr.valid h err = true →
  gerr.String h err = gerr.Done (gerr.spec_String h err)
  ∧ (err = None → gerr.String h err = gerr.Done "<NIL>")
  ∧ (err ≠ None → gerr.spec_String h err ≠ ""
       ∧ gerr.spec_String h err =
         gerr.spec_join (gerr.spec_segment <$> gerr.nodes h err))
  ∧ (∀ (s : string) o, gerr.String_step s o = s +:+ gerr.spec_segment o).
Proof.
  intros Hok Hv. split_and!.
  - destruct err as [a|]; [|done]. simpl. apply valid_bound in Hv.
    by rewrite String_loop_chain.
  - by intros ->.
  - destruct err as [a|]; [intros _|done]. split; [|done]. simpl.
    destruct (valid_lookup h a Hv) as [o Ha].
    unfold gerr.nodes. rewrite (chain_unfold h a o Hok Ha).
    rewrite (objects_cons _ _ _ _ Ha), fmap_cons.
    apply spec_join_nonempty; [done|]. apply Forall_cons. split.
    + apply spec_segment_nonempty.
    + apply Forall_fmap, Forall_forall. intros x _.
      apply spec_segment_nonempty.
  - apply String_step_segment.
Qed.

(** C3.  On a well-formed store, [Code(err, d)] is 0 when [err] is
    null; otherwise it is the code of the first node of the chain,
    outermost first, whose [Code()] is not 0, and [d] when every node
    of the chain has code 0.  The default of [d] is -1. *)
Theorem Code_first_nonzero h err (d : Z) :
  gerr.heap_ok h = true → gerr.valid h err = true →
  gerr.Code_of h err d = gerr.Done
    (match err with
     | None => 0%Z
     | Some _ =>
         match List.find (λ o, negb (gerr.Code o =? 0)%Z) (gerr.nodes h err)
         with
         | Some o => gerr.Code o
         | None => d
         end
     end)
  ∧ (err ≠ None → (∀ o, o ∈ gerr.nodes h err → gerr.Code o = 0%Z) →
     gerr.Code_of h err d = gerr.Done d)
  ∧ (∀ c, gerr.Code_of h err d = gerr.Done c → err ≠ None → c ≠ d →
     ∃ before o after, gerr.nodes h err = before ++ o :: after
       ∧ gerr.Code o = c ∧ c ≠ 0%Z
       ∧ ∀ x, x ∈ before → gerr.Code x = 0%Z)
  ∧ gerr.Code_of_default h err = gerr.Code_of h err (-1)%Z.
Proof.
  intros Hok Hv.
  assert (gerr.Code_of h err d = gerr.Done
    (match err with
     | None => 0%Z
     | Some _ =>
         match List.find (λ o, negb (gerr.Code o =? 0)%Z) (gerr.nodes h err)
         with
         | Some o => gerr.Code o
         | None => d
         end
     end)) as Heq.
  { destruct err as [a|]; [|done]. simpl. apply valid_bound in Hv.
    by rewrite Code_loop_chain. }
  split_and!; [done| | |done].
  - intros Hne Hall. rewrite Heq. destruct err as [a|]; [|done].
    destruct (List.find _ (gerr.nodes h (Some a))) as [o|] eqn:Hfind; [|done].
    apply find_some in Hfind as [Hin Hc].
    apply list_elem_of_In in Hin. rewrite (Hall o Hin) in Hc. done.
  - intros c Hc Hne Hcd. rewrite Heq in Hc. destruct err as [a|]; [|done].
    injection Hc as Hc.
    destruct (List.find _ (gerr.nodes h (Some a))) as [o|] eqn:Hfind; [|done].
    subst c. clear Heq Hcd.
    induction (gerr.nodes h (Some a)) as [|x l IHl]; [done|].
    simpl in Hfind. destruct (negb (gerr.Code x =? 0)%Z) eqn:Hx.
    + injection Hfind as ->. exists [], o, l. split_and!; try done.
      * apply negb_true_iff, Z.eqb_neq in Hx. done.
      * intros y Hy. by apply elem_of_nil in Hy.
    + destruct (IHl Hfind) as (before & o' & after & -> & Ho' & Hnz & Hb).
      exists (x :: before), o', after. split_and!; try done.
      intros y [->|Hy]%elem_of_cons; [|by apply Hb].
      apply negb_false_iff, Z.eqb_eq in Hx. done.
Qed.

End Inspection.

(** ** The construction functions *)

Section Constructed.

Context {ContextType FmtArg : Type}.
Variable fmt_format : string → list FmtArg → string.
Implicit Types (h : gerr.Heap ContextType FmtArg).
Implicit Types (o : gerr.IError ContextType FmtArg).
Implicit Types (s : gerr.State ContextType FmtArg).
Implicit Types (c : gerr.Construction ContextType FmtArg).
Implicit Types (cs : list (gerr.Construction ContextType FmtArg)).
Implicit Types (w : gerr.WrapArgs FmtArg).
Implicit Types (p err : gerr.Error) (a : gerr.addr).

Lemma alloc_lookup_new o s :
  gerr.heap (gerr.alloc o s) !! length (gerr.heap s) = Some o.
Proof. simpl. rewrite lookup_app_r by lia. by rewrite Nat.sub_diag. Qed.

Lemma construct_heap_length c s :
  length (gerr.heap s) ≤ length (gerr.heap (gerr.construct fmt_format c s).2).
Proof.
  destruct (construct_cases fmt_format c s)
    as [(x & -> & _)|[(n & v' & Hv & ->)|(n & x & Hn & Hc & ->)]];
    simpl; rewrite ?length_app; lia.
Qed.

Lemma construct_all_heap_length cs s :
  length (gerr.heap s)
  ≤ length (gerr.heap (gerr.construct_all fmt_format cs s)).
Proof.
  revert s. induction cs as [|c cs IH]; intros s; [done|]. simpl.
  etrans; [apply (construct_heap_length c)|apply IH].
Qed.

(** A parameterless factory returns the pointer to a live object, and
    from then on the same pointer. *)
Lemma static_local_singleton name o s cs :
  gerr.state_ok s = true →
  let first := gerr.static_local name (gerr.Make o) s in
  let between := gerr.construct_all fmt_format cs first.2 in
  let second := gerr.static_local name (gerr.Make o) between in
  ∃ a, first.1 = Some a ∧ second.1 = Some a ∧ second.2 = between
    ∧ is_Some (gerr.heap second.2 !! a).
Proof.
  intros [Hheap Hstat]%state_ok_split first between second.
  assert (∃ a, first.1 = Some a ∧ is_Some (gerr.heap first.2 !! a)
               ∧ gerr.statics first.2 !! name = Some (Some a))
    as (a & Hfirst & [x Hlive] & Hstatic).
  { subst first.
    destruct (static_local_cases name o s) as [(v & Hv & ->)|[Hn ->]]; simpl.
    - destruct (live_Some _ _ (Hstat name v Hv)) as (a & x & -> & Ha).
      exists a. split_and!; [done|by eexists|done].
    - exists (length (gerr.heap s)). split_and!; [done| |].
      + rewrite lookup_app_r by lia. rewrite Nat.sub_diag. by eexists.
      + by rewrite lookup_insert_eq. }
  exists a. subst second between. unfold gerr.static_local at 1 2 3.
  rewrite (construct_all_statics_lookup fmt_format cs _ _ _ Hstatic).
  simpl. split_and!; try done. exists x.
  by apply construct_all_heap_lookup.
Qed.

(** A factory that allocates returns a new pointer, and what it stored
    stays. *)
Lemma Make_fresh o1 o2 s cs cs' :
  let first := gerr.Make o1 s in
  let second := gerr.Make o2 (gerr.construct_all fmt_format cs first.2) in
  let final := gerr.construct_all fmt_format cs' second.2 in
  ∃ a1 a2, first.1 = Some a1 ∧ second.1 = Some a2 ∧ a1 ≠ a2
    ∧ gerr.heap final !! a1 = Some o1 ∧ gerr.heap final !! a2 = Some o2.
Proof.
  intros first second final. subst final second first.
  rewrite !Make_alloc. cbn [fst snd].
  eexists _, _. split_and!; try done.
  - pose proof (construct_all_heap_length cs (gerr.alloc o1 s)) as Hlen.
    simpl in Hlen. rewrite length_app in Hlen. simpl in Hlen. lia.
  - apply construct_all_heap_lookup. apply lookup_app_l_Some.
    apply construct_all_heap_lookup, alloc_lookup_new.
  - apply construct_all_heap_lookup, alloc_lookup_new.
Qed.

(** C6.  Every overload of [Wrap], applied to the null [Error], returns
    a pointer to a new object whose [Cause()] is null: the chain of the
    result is that object alone. *)
Theorem Wrap_null_is_root w s :
  let wrapped := gerr.Wrap_call fmt_format None w s in
  ∃ a o, wrapped.1 = Some a
    ∧ gerr.heap s !! a = None
    ∧ gerr.heap wrapped.2 !! a = Some o
    ∧ o = gerr.wrapper fmt_format None w
    ∧ gerr.Cause o = None
    ∧ gerr.chain (gerr.heap wrapped.2) wrapped.1 = [a].
Proof.
  intros wrapped. subst wrapped. rewrite Wrap_call_alloc. cbn [fst snd].
  exists (length (gerr.heap s)), (gerr.wrapper fmt_format None w).
  pose proof (alloc_lookup_new (gerr.wrapper fmt_format None w) s) as Hnew.
  split_and!; try done.
  - by apply lookup_ge_None.
  - apply wrapper_Cause.
  - unfold gerr.chain. simpl. rewrite length_app. simpl.
    rewrite Nat.add_1_r. simpl in Hnew.
    rewrite (chain_from_S _ _ _ _ Hnew), wrapper_Cause.
    by rewrite chain_from_null.
Qed.

(** Given the messages [fmt::format] returns, a construction in a
    well-formed state returns a pointer that is not null and points to
    an object of the resulting store; for [Make] that object is the one
    requested. *)
Lemma construct_returns_object c s :
  gerr.state_ok s = true →
  let r := gerr.construct fmt_format c s in
  ∃ a o, r.1 = Some a ∧ gerr.heap r.2 !! a = Some o
    ∧ (∀ o', c = gerr.call_Make o' → o = o').
Proof.
  intros [Hheap Hstat]%state_ok_split r. subst r.
  destruct (construct_cases fmt_format c s)
    as [(x & -> & _ & Hmake)|[(n & v & Hv & Heq)|(n & x & Hn & Hc & Heq)]].
  - exists (length (gerr.heap s)), x. split_and!; [done| |done].
    apply alloc_lookup_new.
  - rewrite Heq. destruct (live_Some _ _ (Hstat n v Hv)) as (a & x & -> & Ha).
    exists a, x. split_and!; [done..|]. intros o' ->. simpl in Heq.
    rewrite Make_alloc in Heq. injection Heq as _ Heq.
    apply (f_equal (λ st, length (gerr.heap st))) in Heq. simpl in Heq.
    rewrite length_app in Heq. simpl in Heq. lia.
  - rewrite Heq. exists (length (gerr.heap s)), x. split_and!; [done| |].
    + apply (alloc_lookup_new x s).
    + intros o' ->. simpl in Heq. rewrite Make_alloc in Heq.
      injection Heq as Heq _. apply app_inv_head in Heq. congruence.
Qed.

(** C7.  In a well-formed state the parameterless factory [E()] of a
    [DEFINE_ERROR] or [DEFINE_CODE_ERROR] class returns, on two calls
    with any constructions between them, the same pointer to one
    object.  The factory [E(context)] of a [DEFINE_CONTEXT_ERROR] or
    [DEFINE_CODE_CONTEXT_ERROR] class returns on two calls two different
    pointers, and [Context()] of each object is the context that call
    was given, also after further constructions. *)
Theorem factories_share_or_allocate s cs cs'
    (d : gerr.ErrorDecl) (dc : gerr.CodeErrorDecl)
    (dx : gerr.ContextErrorDecl ContextType FmtArg)
    (dcx : gerr.CodeContextErrorDecl ContextType FmtArg)
    (context1 context2 : ContextType) :
  gerr.state_ok s = true →
  (let first := gerr.E d s in
   let second := gerr.E d (gerr.construct_all fmt_format cs first.2) in
   ∃ a, first.1 = Some a ∧ second.1 = Some a
     ∧ is_Some (gerr.heap second.2 !! a))
  ∧ (let first := gerr.E_code dc s in
     let second := gerr.E_code dc (gerr.construct_all fmt_format cs first.2) in
     ∃ a, first.1 = Some a ∧ second.1 = Some a
       ∧ is_Some (gerr.heap second.2 !! a))
  ∧ (let first := gerr.E_context fmt_format dx context1 s in
     let second := gerr.E_context fmt_format dx context2
                     (gerr.construct_all fmt_format cs first.2) in
     let final := gerr.heap (gerr.construct_all fmt_format cs' second.2) in
     first.1 ≠ second.1
     ∧ gerr.Context_at final first.1 = Some context1
     ∧ gerr.Context_at final second.1 = Some context2)
  ∧ (let first := gerr.E_code_context fmt_format dcx context1 s in
     let second := gerr.E_code_context fmt_format dcx context2
                     (gerr.construct_all fmt_format cs first.2) in
     let final := gerr.heap (gerr.construct_all fmt_format cs' second.2) in
     first.1 ≠ second.1
     ∧ gerr.Context_at final first.1 = Some context1
     ∧ gerr.Context_at final second.1 = Some context2).
Proof.
  intros Hok. split_and!.
  - destruct (static_local_singleton (gerr.ErrTypE d)
      (gerr.DefinedError d None) s cs Hok) as (a & H1 & H2 & _ & Hlive).
    by exists a.
  - destruct (static_local_singleton (gerr.codeErrTypE dc)
      (gerr.DefinedCodeError dc None) s cs Hok) as (a & H1 & H2 & _ & Hlive).
    by exists a.
  - unfold gerr.E_context.
    destruct (Make_fresh
      (gerr.DefinedContextError dx None context1
         (fmt_format (gerr.ctxErrFormaT dx) (gerr.ctxArgs dx context1)))
      (gerr.DefinedContextError dx None context2
         (fmt_format (gerr.ctxErrFormaT dx) (gerr.ctxArgs dx context2)))
      s cs cs') as (a1 & a2 & H1 & H2 & Hne & Ho1 & Ho2).
    cbv zeta. rewrite H1, H2. unfold gerr.Context_at. rewrite Ho1, Ho2.
    split_and!; [congruence|done..].
  - unfold gerr.E_code_context.
    destruct (Make_fresh
      (gerr.DefinedCodeContextError dcx None context1
         (fmt_format (gerr.codeCtxErrFormaT dcx)
            (gerr.codeCtxArgs dcx context1)))
      (gerr.DefinedCodeContextError dcx None context2
         (fmt_format (gerr.codeCtxErrFormaT dcx)
            (gerr.codeCtxArgs dcx context2)))
      s cs cs') as (a1 & a2 & H1 & H2 & Hne & Ho1 & Ho2).
    cbv zeta. rewrite H1, H2. unfold gerr.Context_at. rewrite Ho1, Ho2.
    split_and!; [congruence|done..].
Qed.

End Constructed.

(** ** The wrapper [Try] *)

Section TryFacts.

Context {ValueType : Type}.
Variable ValueType_init : ValueType.
Implicit Types (t src : mylib.Try ValueType) (v val : ValueType).
Implicit Types (e err : gerr.Error).

Lemma IsFailure_negb t : mylib.IsFailure t = negb (mylib.IsSuccess t).
Proof.
  unfold mylib.IsFailure, mylib.IsSuccess.
  destruct (mylib.second t); by compute.
Qed.

(** Assigning a value replaces the whole state, whatever it was. *)
Lemma Assign_value_replaces t v :
  mylib.Assign_value t v = mylib.Try_value v.
Proof.
  unfold mylib.Assign_value, mylib.Try_value, mylib.IsFailure.
  destruct t as [x [a|]]; by compute.
Qed.

(** Assigning an error replaces the whole state of a wrapper of which
    one side only is populated. *)
Lemma Assign_error_replaces t e :
  mylib.exclusive ValueType_init t →
  mylib.Assign_error ValueType_init t e = mylib.Try_error ValueType_init e.
Proof.
  unfold mylib.exclusive, mylib.Assign_error, mylib.Try_error, mylib.IsSuccess.
  destruct t as [x [a|]]; simpl; intros Hex.
  - by rewrite Hex.
  - done.
Qed.

(** The constructors and the assignments keep one side populated. *)
Lemma exclusive_Try_value v :
  mylib.exclusive ValueType_init (mylib.Try_value v).
Proof. by intros H. Qed.

Lemma exclusive_Try_error e :
  mylib.exclusive ValueType_init (mylib.Try_error ValueType_init e).
Proof. by intros H. Qed.

Lemma exclusive_Try_copy src :
  mylib.exclusive ValueType_init src →
  mylib.exclusive ValueType_init (mylib.Try_copy src).
Proof. by destruct src. Qed.

Lemma exclusive_Assign_try t src :
  mylib.exclusive ValueType_init src →
  mylib.exclusive ValueType_init (mylib.Assign_try t src).
Proof. by destruct src. Qed.

(** C5.  A [Try] constructed from a value is in the success state.
    Assigning a non-null error to it makes [IsSuccess()] false and
    [IsFailure()] true, and [Value()] is then the value-initialised
    [ValueType], not the old value.  Assigning a value to a [Try] in
    the failure state makes [Error()] null.  After either assignment
    the wrapper is what the constructor builds from the assigned
    argument alone: nothing of the old state is kept. *)
Theorem Assign_replaces_state v v' e t :
  e ≠ None →
  let constructed := mylib.Try_value v in
  let failed := mylib.Assign_error ValueType_init constructed e in
  mylib.IsSuccess constructed = true
  ∧ mylib.IsFailure constructed = false
  ∧ mylib.IsSuccess failed = false
  ∧ mylib.IsFailure failed = true
  ∧ mylib.Value failed = ValueType_init
  ∧ mylib.Error failed = e
  ∧ failed = mylib.Try_error ValueType_init e
  ∧ (mylib.IsFailure t = true →
     let succeeded := mylib.Assign_value t v' in
     mylib.Error succeeded = None
     ∧ mylib.Value succeeded = v'
     ∧ mylib.IsSuccess succeeded = true
     ∧ mylib.IsFailure succeeded = false
     ∧ succeeded = mylib.Try_value v')
  ∧ (mylib.exclusive ValueType_init t →
     mylib.Assign_error ValueType_init t e = mylib.Try_error ValueType_init e
     ∧ mylib.exclusive ValueType_init (mylib.Assign_error ValueType_init t e)
     ∧ mylib.exclusive ValueType_init (mylib.Assign_value t v')).
Proof.
  intros He constructed failed. subst failed constructed.
  rewrite (Assign_error_replaces _ e (exclusive_Try_value v)).
  split_and!; try done.
  - by apply bool_decide_eq_false_2.
  - by apply bool_decide_eq_true_2.
  - intros _. by rewrite Assign_value_replaces.
  - intros Hex. rewrite Assign_error_replaces, Assign_value_replaces by done.
    split_and!; [done|apply exclusive_Try_error|apply exclusive_Try_value].
Qed.

(** C9.  A [Try] constructed from the null [Error] is in the success
    state: [IsSuccess()] is true, [IsFailure()] false, [Error()] null
    and [Value()] the value-initialised [ValueType]. *)
Theorem Try_of_null_is_success :
  let t := mylib.Try_error ValueType_init None in
  mylib.IsSuccess t = true
  ∧ mylib.IsFailure t = false
  ∧ mylib.to_bool t = true
  ∧ mylib.Error t = None
  ∧ mylib.Value t = ValueType_init.
Proof. by compute. Qed.

(** C10.  Assigning the null [Error] to a [Try] in the success state,
    by [Assign] or by [operator=], leaves it in the success state and
    resets its value: [Value()] is then the value-initialised
    [ValueType], whatever it was before. *)
Theorem Assign_null_resets_value t :
  mylib.IsSuccess t = true →
  let t' := mylib.Assign_error ValueType_init t None in
  mylib.IsSuccess t' = true
  ∧ mylib.IsFailure t' = false
  ∧ mylib.Value t' = ValueType_init
  ∧ mylib.assign_error_op ValueType_init t None = t'.
Proof.
  intros Hs t'. subst t'. unfold mylib.assign_error_op, mylib.Assign_error.
  rewrite Hs. by compute.
Qed.

End TryFacts.

(** ** The theorems at the errors of the examples *)

(** C1, as stated, fails.  The value 0 is matched like any other code:
    [IsCode(0, err)] is true for the error of [CheckArgumentValue],
    whose one node has no code, although the specified condition asks
    for a code other than 0. *)
Lemma IsCode_zero_matches :
  let h := gerr.heap fake.CheckArgumentValue.2 in
  let err := fake.CheckArgumentValue.1 in
  gerr.IsCode 0 h err = gerr.Done true
  ∧ gerr.AsCode 0 h err = gerr.Done err
  ∧ err ≠ None
  ∧ ¬ gerr.spec_IsCode 0 h err.
Proof.
  split_and!; [reflexivity|reflexivity|discriminate|].
  by intros (o & _ & _ & Hne).
Qed.

(** [AsCode] and [IsCode] on the wrapped error of [MyFakeAPI::Call(-1)]:
    the code 1000001 is found on the second node. *)
Lemma AsCode_first_equal_code_witness :
  let h := gerr.heap fake.Call_neg_wrapped.2 in
  let err := fake.Call_neg_wrapped.1 in
  gerr.heap_ok h = true ∧ gerr.valid h err = true
  ∧ gerr.AsCode 1000001 h err = gerr.Done fake.Call_neg.1
  ∧ gerr.IsCode 1000001 h err = gerr.Done true.
Proof.
  split; [reflexivity|]. split; [reflexivity|].
  destruct (AsCode_first_equal_code 1000001
              (gerr.heap fake.Call_neg_wrapped.2) fake.Call_neg_wrapped.1
              eq_refl eq_refl) as (r & HAs & HIs & Hr & _).
  rewrite HAs, HIs, Hr. split; reflexivity.
Defined.

(** [As<ErrArgumentNeg>] on the same error, and on that error wrapped
    once more by [Wrap(err, 5)]: both find the [ErrArgumentNeg] node. *)
Lemma As_first_of_class_witness :
  let s := fake.Call_neg_wrapped.2 in
  let err := fake.Call_neg_wrapped.1 in
  let wrapped := gerr.Wrap_call fake.format err (gerr.wrap_code 5) s in
  gerr.heap_ok (gerr.heap s) = true ∧ gerr.valid (gerr.heap s) err = true
  ∧ gerr.As (gerr.Defined "ErrArgumentNeg") (gerr.heap s) err
    = gerr.Done fake.Call_neg.1
  ∧ gerr.As (gerr.Defined "ErrArgumentNeg") (gerr.heap wrapped.2) wrapped.1
    = gerr.Done fake.Call_neg.1.
Proof.
  split; [reflexivity|]. split; [reflexivity|].
  destruct (As_first_of_class fake.format (gerr.Defined "ErrArgumentNeg")
              fake.Call_neg_wrapped.2 fake.Call_neg_wrapped.1
              eq_refl eq_refl) as (r & HAs & Hr & _ & _ & _ & Hwrap).
  rewrite (Hwrap (gerr.wrap_code 5) eq_refl), HAs, Hr. split; reflexivity.
Defined.

(** [String] on the same error. *)
Lemma String_renders_chain_witness :
  let h := gerr.heap fake.Call_neg_wrapped.2 in
  let err := fake.Call_neg_wrapped.1 in
  gerr.heap_ok h = true ∧ gerr.valid h err = true
  ∧ gerr.String h err
    = gerr.Done "call failed:1000001:Argument is negative".
Proof.
  split; [reflexivity|]. split; [reflexivity|].
  destruct (String_renders_chain (gerr.heap fake.Call_neg_wrapped.2)
              fake.Call_neg_wrapped.1 eq_refl eq_refl) as [HString _].
  rewrite HString. reflexivity.
Defined.

(** [Code] on the same error, and on the error of [CheckArguments],
    which has no code. *)
Lemma Code_first_nonzero_witness :
  let h := gerr.heap fake.Call_neg_wrapped.2 in
  gerr.heap_ok h = true
  ∧ gerr.valid h fake.Call_neg_wrapped.1 = true
  ∧ gerr.Code_of h fake.Call_neg_wrapped.1 (-1) = gerr.Done 1000001%Z
  ∧ gerr.valid h fake.CheckArguments.1 = true
  ∧ gerr.Code_of h fake.CheckArguments.1 (-1) = gerr.Done (-1)%Z.
Proof.
  split; [reflexivity|]. split; [reflexivity|].
  destruct (Code_first_nonzero (gerr.heap fake.Call_neg_wrapped.2)
              fake.Call_neg_wrapped.1 (-1) eq_refl eq_refl) as [HCode _].
  destruct (Code_first_nonzero (gerr.heap fake.Call_neg_wrapped.2)
              fake.CheckArguments.1 (-1) eq_refl eq_refl) as [HCode' _].
  rewrite HCode, HCode'. split_and!; reflexivity.
Defined.

(** [ErrArgumentNeg::E()] twice, and [ErrLERandNum1::E(context)] for two
    contexts, with a call of [New] in between. *)
Lemma factories_share_or_allocate_witness :
  let s := fake.Call_neg.2 in
  let cs := [gerr.call_New (Some "x")] in
  let first := gerr.E_code fake.ErrArgumentNeg s in
  let second := gerr.E_code fake.ErrArgumentNeg
                  (gerr.construct_all fake.format cs first.2) in
  let first' := gerr.E_context fake.format fake.ErrLERandNum1
                  (fake.mkLERandErrorContext 3 1) s in
  let second' := gerr.E_context fake.format fake.ErrLERandNum1
                   (fake.mkLERandErrorContext 2 2)
                   (gerr.construct_all fake.format cs first'.2) in
  gerr.state_ok s = true
  ∧ (∃ a, first.1 = Some a ∧ second.1 = Some a
       ∧ is_Some (gerr.heap second.2 !! a))
  ∧ first'.1 ≠ second'.1
  ∧ gerr.Context_at (gerr.heap second'.2) first'.1
    = Some (fake.mkLERandErrorContext 3 1)
  ∧ gerr.Context_at (gerr.heap second'.2) second'.1
    = Some (fake.mkLERandErrorContext 2 2).
Proof.
  split; [reflexivity|].
  destruct (factories_share_or_allocate fake.format fake.Call_neg.2
              [gerr.call_New (Some "x")] []
              fake.ErrArgumentZero fake.ErrArgumentNeg
              fake.ErrLERandNum1 fake.ErrLERandNum2
              (fake.mkLERandErrorContext 3 1) (fake.mkLERandErrorContext 2 2)
              eq_refl) as (_ & Hcode & Hctx & _).
  split; [exact Hcode|exact Hctx].
Defined.

(** A [Try<int>] holding 7, then assigned an error. *)
Lemma Assign_replaces_state_witness :
  let constructed := mylib.Try_value 7%Z in
  let failed := mylib.Assign_error 0%Z constructed (Some 0) in
  Some 0 ≠ (None : gerr.Error)
  ∧ mylib.IsSuccess constructed = true
  ∧ mylib.IsSuccess failed = false
  ∧ mylib.IsFailure failed = true
  ∧ mylib.Value failed = 0%Z.
Proof.
  assert (Some 0 ≠ (None : gerr.Error)) as Hne by discriminate.
  split; [exact Hne|].
  destruct (Assign_replaces_state 0%Z 7%Z 9%Z (Some 0)
              (mylib.Try_error 0%Z (Some 0)) Hne)
    as (H1 & _ & H3 & H4 & H5 & _).
  split_and!; [exact H1|exact H3|exact H4|exact H5].
Defined.

(** A [Try<int>] holding 7, then assigned the null error. *)
Lemma Assign_null_resets_value_witness :
  let t := mylib.Try_value 7%Z in
  let t' := mylib.Assign_error 0%Z t None in
  mylib.IsSuccess t = true
  ∧ mylib.IsSuccess t' = true
  ∧ mylib.Value t' = 0%Z.
Proof.
  split; [reflexivity|].
  destruct (Assign_null_resets_value 0%Z (mylib.Try_value 7%Z) eq_refl)
    as (H1 & _ & H3 & _).
  split; [exact H1|exact H3].
Defined.

(** ** More on the inspection functions *)

Section MoreInspection.

Context {ContextType FmtArg : Type}.
Implicit Types (h : gerr.Heap ContextType FmtArg).
Implicit Types (o : gerr.IError ContextType FmtArg).
Implicit Types (P : gerr.IError ContextType FmtArg → bool).
Implicit Types (p err : gerr.Error) (a : gerr.addr).

Lemma String_chain h err :
  gerr.heap_ok h = true → gerr.valid h err = true →
  gerr.String h err = gerr.Done (gerr.spec_String h err).
Proof.
  intros Hok Hv. destruct err as [a|]; [|done]. simpl.
  apply valid_bound in Hv. by rewrite String_loop_chain.
Qed.

Lemma Code_chain h err (d : Z) :
  gerr.heap_ok h = true → gerr.valid h err = true →
  gerr.Code_of h err d = gerr.Done
    (match err with
     | None => 0%Z
     | Some _ =>
         match List.find (λ o, negb (gerr.Code o =? 0)%Z) (gerr.nodes h err)
         with
         | Some o => gerr.Code o
         | None => d
         end
     end).
Proof.
  intros Hok Hv. destruct err as [a|]; [|done]. simpl.
  apply valid_bound in Hv. by rewrite Code_loop_chain.
Qed.

Lemma chain_live h err a : a ∈ gerr.chain h err → is_Some (h !! a).
Proof. apply chain_from_live. Qed.

(** Searching the objects of live addresses is searching the
    addresses. *)
Lemma find_objects h P l :
  (∀ a, a ∈ l → is_Some (h !! a)) →
  List.find P (gerr.objects h l) = gerr.first_at h P l ≫= (λ a, h !! a).
Proof.
  intros Hlive. induction l as [|x l IH]; [done|].
  destruct (Hlive x) as [ox Hx]; [by left|].
  rewrite (objects_cons _ _ _ _ Hx). unfold gerr.first_at. simpl.
  rewrite Hx. simpl. destruct (P ox); [by simpl|].
  apply IH. intros a Ha. apply Hlive. by right.
Qed.

(** The first node with a code is also the first node with its own
    code: the nodes before it have code 0. *)
Lemma first_coded_first_equal h l a :
  gerr.first_at h (λ o, negb (gerr.Code o =? 0)%Z) l = Some a →
  ∃ o, h !! a = Some o ∧ gerr.Code o ≠ 0%Z
    ∧ gerr.first_at h (λ o', (gerr.Code o' =? gerr.Code o)%Z) l = Some a.
Proof.
  induction l as [|x l IH]; [done|]. unfold gerr.first_at. simpl.
  destruct (h !! x) as [ox|] eqn:Hx; simpl.
  - destruct (gerr.Code ox =? 0)%Z eqn:Hc; simpl.
    + intros Hfind. destruct (IH Hfind) as (o & Ha & Hnz & Heq).
      exists o. split_and!; [done..|]. apply Z.eqb_eq in Hc. rewrite Hc.
      rewrite (proj2 (Z.eqb_neq 0 (gerr.Code o))) by done. exact Heq.
    + intros [= <-]. exists ox. apply Z.eqb_neq in Hc. rewrite Hx.
      split_and!; [done..|]. simpl. by rewrite Z.eqb_refl.
  - intros Hfind. destruct (IH Hfind) as (o & Ha & Hnz & Heq).
    exists o. by split_and!.
Qed.

(** X1.  On a well-formed store [Is<ExpectErr>(err)] is true exactly
    when some node of the chain of [err] is of class [ExpectErr]; it is
    false for the null error. *)
Theorem Is_node_of_class (ExpectErr : gerr.ErrClass) h err :
  gerr.heap_ok h = true → gerr.valid h err = true →
  ∃ b, gerr.Is ExpectErr h err = gerr.Done b
    ∧ (b = true ↔
       ∃ o, o ∈ gerr.nodes h err
         ∧ gerr.is_base_of ExpectErr (gerr.class_of o) = true)
    ∧ (err = None → b = false).
Proof.
  intros Hok Hv. unfold gerr.Is. rewrite As_chain by done.
  eexists. split; [done|]. split.
  - rewrite bool_decide_eq_true. apply first_at_nodes.
  - intros ->. by rewrite chain_null.
Qed.

Lemma is_base_of_refl (V : gerr.ErrClass) : gerr.is_base_of V V = true.
Proof.
  unfold gerr.is_base_of. apply orb_true_iff. right.
  by apply bool_decide_eq_true.
Qed.

(** [As] stops at the outermost node when it is of the class. *)
Lemma As_head (ExpectErr : gerr.ErrClass) h a o :
  h !! a = Some o →
  gerr.is_base_of ExpectErr (gerr.class_of o) = true →
  gerr.As ExpectErr h (Some a) = gerr.Done (Some a).
Proof.
  intros Ha HV. pose proof (lookup_lt_Some _ _ _ Ha) as Hlt. simpl.
  destruct (length h) as [|n]; [lia|]. simpl.
  rewrite Ha. unfold gerr.dynamic_pointer_cast. by rewrite HV.
Qed.

(** X11.  [As<ExpectErr>(err)] is [err] itself when the outermost node
    is of class [ExpectErr]; in particular [As<IError>(err)] is [err]
    for every error, null or not. *)
Theorem As_outermost (ExpectErr : gerr.ErrClass) h err :
  gerr.valid h err = true →
  gerr.As gerr.IError_base h err = gerr.Done err
  ∧ ∀ a o, err = Some a → h !! a = Some o →
      gerr.is_base_of ExpectErr (gerr.class_of o) = true →
      gerr.As ExpectErr h err = gerr.Done err.
Proof.
  intros Hv. destruct err as [a|]; [|by split].
  destruct (valid_lookup h a Hv) as [o Ha].
  split; [by apply (As_head _ _ _ o)|].
  intros a' o' [= <-] Ha' HV. by apply (As_head _ _ _ o').
Qed.

(** X5.  With a default other than 0, [Code(err, default)] is 0 only
    for the null error: an error that has no code anywhere in its chain
    yields the default, never 0.  This holds for the default argument
    -1. *)
Theorem Code_zero_only_null h err (d : Z) :
  gerr.heap_ok h = true → gerr.valid h err = true → d ≠ 0%Z →
  (∃ c, gerr.Code_of h err d = gerr.Done c ∧ (c = 0%Z ↔ err = None))
  ∧ (gerr.Code_of_default h err = gerr.Done 0%Z ↔ err = None).
Proof.
  intros Hok Hv Hd.
  assert (∀ d', d' ≠ 0%Z →
    ∃ c, gerr.Code_of h err d' = gerr.Done c ∧ (c = 0%Z ↔ err = None))
    as Hgen.
  { intros d' Hd'. rewrite Code_chain by done. eexists. split; [done|].
    destruct err as [a|]; [|done]. split; [|done]. intros Hc.
    destruct (List.find _ (gerr.nodes h (Some a))) as [o|] eqn:Hfind;
      [|done].
    apply find_some in Hfind as [_ Hnz].
    apply negb_true_iff, Z.eqb_neq in Hnz. done. }
  split; [by apply Hgen|].
  destruct (Hgen (-1)%Z) as (c & Hc & Hiff); [done|].
  unfold gerr.Code_of_default. rewrite Hc. split.
  - intros [= ->]. by apply Hiff.
  - intros Hnull. f_equal. by apply Hiff.
Qed.

(** X6.  When some node of the chain of [err] has a code, the code [c]
    that [Code(err, default)] returns is not 0, [IsCode(c, err)] is
    true, and [AsCode(c, err)] returns the first node of the chain that
    has a code. *)
Theorem AsCode_of_Code h err (d c : Z) :
  gerr.heap_ok h = true → gerr.valid h err = true →
  (∃ o, o ∈ gerr.nodes h err ∧ gerr.Code o ≠ 0%Z) →
  gerr.Code_of h err d = gerr.Done c →
  c ≠ 0%Z
  ∧ gerr.IsCode c h err = gerr.Done true
  ∧ ∃ a o, gerr.AsCode c h err = gerr.Done (Some a)
      ∧ h !! a = Some o ∧ gerr.Code o = c
      ∧ gerr.first_at h (λ o, negb (gerr.Code o =? 0)%Z) (gerr.chain h err)
        = Some a.
Proof.
  intros Hok Hv (o & Hin & Hnz) Hcode.
  assert (gerr.first_at h (λ o, negb (gerr.Code o =? 0)%Z) (gerr.chain h err)
          ≠ None) as Hsome.
  { apply first_at_nodes. exists o. split; [done|].
    by apply negb_true_iff, Z.eqb_neq. }
  destruct (gerr.first_at h _ (gerr.chain h err)) as [a|] eqn:Hfirst; [|done].
  destruct (first_coded_first_equal _ _ _ Hfirst) as (oa & Ha & Hnza & Heq).
  assert (err ≠ None) as Hne.
  { intros ->. by rewrite chain_null in Hfirst. }
  rewrite Code_chain in Hcode by done. destruct err as [e|]; [|done].
  unfold gerr.nodes in Hcode.
  rewrite find_objects in Hcode by apply chain_live.
  rewrite Hfirst in Hcode. simpl in Hcode. rewrite Ha in Hcode.
  injection Hcode as <-.
  unfold gerr.IsCode. rewrite AsCode_chain, Heq by done.
  split_and!; [done|done|]. by exists a, oa.
Qed.

Lemma chain_from_below h :
  gerr.heap_ok h = true →
  ∀ steps p, gerr.bound p ≤ steps → gerr.bound p ≤ length h →
  (∀ a, a ∈ gerr.chain_from h steps p → S a ≤ gerr.bound p)
  ∧ (∀ i j a b, i < j → gerr.chain_from h steps p !! i = Some a →
       gerr.chain_from h steps p !! j = Some b → b < a).
Proof.
  intros Hok. induction steps as [|steps IH]; intros p Hs Hh.
  - split; [intros a Ha; by apply elem_of_nil in Ha|by intros [|i] j].
  - destruct p as [e|]; [|split; [intros a Ha; by apply elem_of_nil in Ha
                                 |by intros [|i] j]].
    destruct (loop_step h steps e Hok Hs Hh) as (o & He & Hcs & Hch).
    rewrite (chain_from_S _ _ _ _ He).
    destruct (IH (gerr.Cause o) Hcs Hch) as [Hbelow Hdecr].
    pose proof (heap_ok_cause h e o Hok He) as Hcause.
    split.
    + intros a [->|Ha]%elem_of_cons; simpl; [lia|].
      specialize (Hbelow a Ha). lia.
    + intros i j a b Hij Hi Hj. destruct j as [|j]; [lia|]. simpl in Hj.
      apply list_elem_of_lookup_2 in Hj as Hbin.
      specialize (Hbelow b Hbin).
      destruct i as [|i]; simpl in Hi.
      * injection Hi as <-. lia.
      * apply (Hdecr i j); [lia|done..].
Qed.

(** X12.  In a well-formed store the chain of an error has no cycle:
    each [Cause()] lies at a smaller address than its node, so the
    addresses of the chain strictly decrease, none is repeated, and the
    chain starts at the error itself. *)
Theorem chain_acyclic h err :
  gerr.heap_ok h = true → gerr.valid h err = true →
  (∀ i j a b, i < j → gerr.chain h err !! i = Some a →
     gerr.chain h err !! j = Some b → b < a)
  ∧ NoDup (gerr.chain h err)
  ∧ head (gerr.chain h err) = err
  ∧ length (gerr.chain h err) ≤ gerr.bound err.
Proof.
  intros Hok Hv. apply valid_bound in Hv.
  destruct (chain_from_below h Hok (length h) err Hv Hv)
    as [Hbelow Hdecr].
  assert (∀ i j a b, i < j → gerr.chain h err !! i = Some a →
    gerr.chain h err !! j = Some b → b < a) as Hdecr' by exact Hdecr.
  split_and!; [done| | |].
  - apply NoDup_alt. intros i j a Hi Hj.
    destruct (Nat.lt_trichotomy i j) as [Hlt|[Heq|Hgt]]; [|done|].
    + pose proof (Hdecr' i j a a Hlt Hi Hj). lia.
    + pose proof (Hdecr' j i a a Hgt Hj Hi). lia.
  - destruct err as [e|]; [|by rewrite chain_null].
    destruct (lookup_lt_is_Some_2 h e) as [o He]; [simpl in Hv; lia|].
    by rewrite (chain_unfold _ _ _ Hok He).
  - destruct (gerr.chain h err) as [|x l] eqn:Hl; [simpl; lia|].
    assert (∀ k b, l !! k = Some b → b + S k ≤ x) as Hgap.
    { induction k as [|k IHk]; intros b Hb.
      - pose proof (Hdecr' 0 1 x b (Nat.lt_0_1) eq_refl Hb). lia.
      - destruct (lookup_lt_is_Some_2 l k) as [b' Hb'].
        { apply lookup_lt_Some in Hb. lia. }
        pose proof (Hdecr' (S k) (S (S k)) b' b (Nat.lt_succ_diag_r _)
                      Hb' Hb).
        specialize (IHk b' Hb'). lia. }
    assert (S x ≤ gerr.bound err) as Hx.
    { apply Hbelow. unfold gerr.chain in Hl. rewrite Hl. by left. }
    simpl. destruct (decide (length l = 0)) as [->|Hpos]; [lia|].
    destruct (lookup_lt_is_Some_2 l (length l - 1)) as [b Hb]; [lia|].
    specialize (Hgap _ _ Hb). lia.
Qed.

End MoreInspection.

(** ** More on the construction functions *)

Section MoreConstruction.

Context {ContextType FmtArg : Type}.
Variable fmt_format : string → list FmtArg → string.
Implicit Types (h : gerr.Heap ContextType FmtArg).
Implicit Types (o : gerr.IError ContextType FmtArg).
Implicit Types (s : gerr.State ContextType FmtArg).
Implicit Types (c : gerr.Construction ContextType FmtArg).
Implicit Types (cs : list (gerr.Construction ContextType FmtArg)).
Implicit Types (w : gerr.WrapArgs FmtArg) (ws : list (gerr.WrapArgs FmtArg)).
Implicit Types (n : NewArgs FmtArg).
Implicit Types (p err : gerr.Error) (a : gerr.addr).

(** *** Allocation leaves the old errors as they are *)

Lemma objects_alloc h o l :
  (∀ a, a ∈ l → is_Some (h !! a)) →
  gerr.objects (h ++ [o]) l = gerr.objects h l.
Proof.
  intros Hlive. induction l as [|x l IH]; [done|].
  destruct (Hlive x) as [ox Hx]; [by left|].
  rewrite (objects_cons _ _ _ _ Hx),
    (objects_cons _ _ _ _ (lookup_app_l_Some _ _ _ _ Hx)).
  f_equal. apply IH. intros a Ha. apply Hlive. by right.
Qed.

Lemma valid_alloc h o p :
  gerr.valid h p = true → gerr.valid (h ++ [o]) p = true.
Proof.
  rewrite !valid_bound, length_app. simpl. lia.
Qed.

Lemma nodes_alloc h o p :
  gerr.heap_ok h = true → gerr.valid h p = true →
  gerr.nodes (h ++ [o]) p = gerr.nodes h p.
Proof.
  intros Hok Hv. unfold gerr.nodes. rewrite chain_alloc by done.
  apply objects_alloc. intros a. apply chain_live.
Qed.

Lemma inspect_alloc ExpectErr code d h o p :
  gerr.heap_ok h = true → gerr.valid h (gerr.Cause o) = true →
  gerr.valid h p = true →
  inspect ExpectErr code d (h ++ [o]) p = inspect ExpectErr code d h p.
Proof.
  intros Hok Hc Hv. pose proof (heap_ok_alloc h o Hok Hc) as Hok'.
  pose proof (valid_alloc h o p Hv) as Hv'. unfold inspect.
  rewrite !As_chain, !AsCode_chain, !String_chain, !Code_chain by done.
  rewrite chain_alloc, !first_at_alloc by (done || apply chain_live).
  unfold gerr.spec_String. by rewrite nodes_alloc.
Qed.

Lemma valid_construct c s p :
  gerr.valid (gerr.heap s) p = true →
  gerr.valid (gerr.heap (gerr.construct fmt_format c s).2) p = true.
Proof.
  rewrite !valid_bound. pose proof (construct_heap_length fmt_format c s).
  lia.
Qed.

Lemma inspect_construct ExpectErr code d c s p :
  gerr.state_ok s = true →
  Forall (λ q, gerr.valid (gerr.heap s) q = true) (gerr.pointer_args c) →
  gerr.valid (gerr.heap s) p = true →
  inspect ExpectErr code d (gerr.heap (gerr.construct fmt_format c s).2) p
  = inspect ExpectErr code d (gerr.heap s) p.
Proof.
  intros [Hheap Hstat]%state_ok_split Hargs Hv.
  destruct (construct_cases fmt_format c s)
    as [(o & -> & Hcause & _)|[(name & v & _ & ->)|(name & o & _ & Hc & ->)]];
    simpl; [|done|].
  - apply inspect_alloc; [done| |done].
    destruct Hcause as [->|Hin]; [done|].
    by apply (proj1 (Forall_forall _ _) Hargs).
  - apply inspect_alloc; [done| |done]. by rewrite Hc.
Qed.

Lemma args_valid_head c cs s :
  gerr.args_valid fmt_format (c :: cs) s →
  Forall (λ q, gerr.valid (gerr.heap s) q = true) (gerr.pointer_args c)
  ∧ gerr.args_valid fmt_format cs (gerr.construct fmt_format c s).2.
Proof.
  intros [Hc Hcs]. split; [|done].
  eapply Forall_impl; [exact Hc|]. intros [a|] Ha; [|done].
  by apply bool_decide_eq_true.
Qed.

(** X2.  Errors are immutable: whatever is constructed later, [As],
    [AsCode], [String] and [Code] return on an existing error what they
    returned before. *)
Theorem constructions_preserve_errors
    (ExpectErr : gerr.ErrClass) (code d : Z) cs s p :
  gerr.state_ok s = true → gerr.args_valid fmt_format cs s →
  gerr.valid (gerr.heap s) p = true →
  let h := gerr.heap s in
  let h' := gerr.heap (gerr.construct_all fmt_format cs s) in
  gerr.As ExpectErr h' p = gerr.As ExpectErr h p
  ∧ gerr.AsCode code h' p = gerr.AsCode code h p
  ∧ gerr.String h' p = gerr.String h p
  ∧ gerr.Code_of h' p d = gerr.Code_of h p d.
Proof.
  intros Hok Hargs Hv h h'. subst h h'.
  assert (inspect ExpectErr code d
            (gerr.heap (gerr.construct_all fmt_format cs s)) p
          = inspect ExpectErr code d (gerr.heap s) p) as Heq.
  { revert s Hok Hargs Hv. induction cs as [|c cs IH]; intros s Hok Hargs Hv;
      [done|].
    apply args_valid_head in Hargs as [Hc Hcs]. simpl.
    rewrite IH; [by apply inspect_construct| |done|by apply valid_construct].
    by apply construct_state_ok. }
  unfold inspect in Heq. injection Heq as -> -> -> ->. done.
Qed.

(** X13.  Every state reached from the initial one by constructions,
    each given pointers that exist when it is called, is well formed,
    and the pointer a further construction returns there is live. *)
Theorem reachable_state_ok cs c :
  gerr.args_valid fmt_format cs (gerr.init ContextType FmtArg) →
  let s := gerr.construct_all fmt_format cs (gerr.init ContextType FmtArg) in
  let r := gerr.construct fmt_format c s in
  gerr.state_ok s = true
  ∧ gerr.live (gerr.heap r.2) r.1
  ∧ (Forall (λ q, gerr.valid (gerr.heap s) q = true) (gerr.pointer_args c) →
     gerr.state_ok r.2 = true).
Proof.
  intros Hargs s r.
  assert (gerr.state_ok s = true) as Hok
    by (apply construct_all_state_ok; [apply state_ok_init|done]).
  split_and!; [done| |by apply construct_state_ok].
  subst r. apply state_ok_split in Hok as [Hheap Hstat].
  destruct (construct_cases fmt_format c s)
    as [(o & -> & _)|[(name & v & Hv & ->)|(name & o & _ & _ & ->)]]; simpl.
  - apply live_new.
  - by apply (Hstat name).
  - apply live_new.
Qed.

(** *** The chain of a new node *)

Lemma lookup_alloc_new h o : (h ++ [o]) !! length h = Some o.
Proof. rewrite lookup_app_r by lia. by rewrite Nat.sub_diag. Qed.

Lemma nodes_alloc_new h o :
  gerr.heap_ok h = true → gerr.valid h (gerr.Cause o) = true →
  gerr.nodes (h ++ [o]) (Some (length h)) = o :: gerr.nodes h (gerr.Cause o).
Proof.
  intros Hok Hc. pose proof (heap_ok_alloc h o Hok Hc) as Hok'.
  unfold gerr.nodes.
  rewrite (chain_unfold _ _ _ Hok' (lookup_alloc_new h o)).
  rewrite (objects_cons _ _ _ _ (lookup_alloc_new h o)). f_equal.
  by apply nodes_alloc.
Qed.

Lemma nodes_nonnull h a :
  gerr.heap_ok h = true → gerr.valid h (Some a) = true →
  gerr.nodes h (Some a) ≠ [].
Proof.
  intros Hok Hv. destruct (valid_lookup h a Hv) as [o Ha].
  unfold gerr.nodes.
  by rewrite (chain_unfold _ _ _ Hok Ha), (objects_cons _ _ _ _ Ha).
Qed.

Lemma String_alloc_new h o :
  gerr.heap_ok h = true → gerr.valid h (gerr.Cause o) = true →
  gerr.String (h ++ [o]) (Some (length h)) = gerr.Done
    (match gerr.Cause o with
     | None => gerr.spec_segment o
     | Some _ =>
         gerr.spec_segment o +:+ ":" +:+ gerr.spec_String h (gerr.Cause o)
     end).
Proof.
  intros Hok Hc. pose proof (heap_ok_alloc h o Hok Hc) as Hok'.
  rewrite String_chain; [|done|].
  2:{ apply valid_bound. rewrite length_app. simpl. lia. }
  f_equal. unfold gerr.spec_String. rewrite nodes_alloc_new by done.
  rewrite fmap_cons. destruct (gerr.Cause o) as [e|] eqn:Hcause.
  - rewrite spec_join_cons; [done|].
    intros Hnil. apply fmap_nil_inv in Hnil. by apply nodes_nonnull in Hnil.
  - unfold gerr.nodes. by rewrite chain_null.
Qed.

Lemma Code_alloc_new h o (d : Z) :
  gerr.heap_ok h = true → gerr.valid h (gerr.Cause o) = true →
  ∃ inner, gerr.Code_of h (gerr.Cause o) d = gerr.Done inner
    ∧ gerr.Code_of (h ++ [o]) (Some (length h)) d = gerr.Done
        (if (gerr.Code o =? 0)%Z
         then match gerr.Cause o with None => d | Some _ => inner end
         else gerr.Code o).
Proof.
  intros Hok Hc. pose proof (heap_ok_alloc h o Hok Hc) as Hok'.
  eexists. split; [by apply Code_chain|].
  rewrite Code_chain; [|done|].
  2:{ apply valid_bound. rewrite length_app. simpl. lia. }
  f_equal. rewrite nodes_alloc_new by done. simpl.
  destruct (gerr.Code o =? 0)%Z; [|done]. simpl.
  destruct (gerr.Cause o) as [e|]; [done|].
  unfold gerr.nodes. by rewrite chain_null.
Qed.

Lemma spec_segment_render o :
  gerr.spec_segment o = render (gerr.Code o) (gerr.Message o).
Proof.
  unfold gerr.spec_segment, render, gerr.message_present.
  by destruct (gerr.Code o =? 0)%Z, (has_text (gerr.Message o)).
Qed.

Lemma wrapper_Code err w :
  gerr.Code (gerr.wrapper (ContextType:=ContextType) fmt_format err w)
  = Wrap_code_arg w.
Proof. by destruct w. Qed.

Lemma wrapper_Message err w :
  gerr.Message (gerr.wrapper (ContextType:=ContextType) fmt_format err w)
  = Wrap_message_arg fmt_format w.
Proof. by destruct w. Qed.

(** X3.  [String] of a wrapped error is the segment of the code and
    message given to [Wrap], then a colon, then [String] of the wrapped
    error; when the wrapped error is null it is the segment alone, and
    ["<NIL>"] does not appear. *)
Theorem String_of_Wrap w err s :
  gerr.heap_ok (gerr.heap s) = true → gerr.valid (gerr.heap s) err = true →
  let wrapped := gerr.Wrap_call fmt_format err w s in
  let segment := render (Wrap_code_arg w) (Wrap_message_arg fmt_format w) in
  ∃ inner, gerr.String (gerr.heap s) err = gerr.Done inner
    ∧ gerr.String (gerr.heap wrapped.2) wrapped.1 = gerr.Done
        (match err with
         | None => segment
         | Some _ => segment +:+ ":" +:+ inner
         end).
Proof.
  intros Hok Hv wrapped segment. subst wrapped segment.
  exists (gerr.spec_String (gerr.heap s) err).
  split; [by apply String_chain|].
  rewrite Wrap_call_alloc. unfold gerr.alloc. cbn [fst snd gerr.heap].
  rewrite String_alloc_new by (by rewrite ?wrapper_Cause).
  by rewrite wrapper_Cause, spec_segment_render, wrapper_Code,
    wrapper_Message.
Qed.

(** X4.  [Code] of a wrapped error is the code given to [Wrap] when
    that is not 0, and otherwise [Code] of the wrapped error; but when
    the wrapped error is null and [Wrap] is given no code, it is the
    default, not the 0 that [Code] returns for the null error. *)
Theorem Code_of_Wrap w err s (d : Z) :
  gerr.heap_ok (gerr.heap s) = true → gerr.valid (gerr.heap s) err = true →
  let wrapped := gerr.Wrap_call fmt_format err w s in
  ∃ inner, gerr.Code_of (gerr.heap s) err d = gerr.Done inner
    ∧ gerr.Code_of (gerr.heap wrapped.2) wrapped.1 d = gerr.Done
        (if (Wrap_code_arg w =? 0)%Z
         then match err with None => d | Some _ => inner end
         else Wrap_code_arg w).
Proof.
  intros Hok Hv wrapped. subst wrapped.
  rewrite Wrap_call_alloc. unfold gerr.alloc. cbn [fst snd gerr.heap].
  destruct (Code_alloc_new (gerr.heap s) (gerr.wrapper fmt_format err w) d)
    as (inner & Hinner & Hnew); [done|by rewrite wrapper_Cause|].
  rewrite wrapper_Cause in Hinner, Hnew. rewrite wrapper_Code in Hnew.
  by exists inner.
Qed.

End MoreConstruction.

(** ** Roots, typed wrappers and layers of wraps *)

Section Layers.

Context {ContextType FmtArg : Type}.
Variable fmt_format : string → list FmtArg → string.
Implicit Types (h : gerr.Heap ContextType FmtArg).
Implicit Types (o : gerr.IError ContextType FmtArg).
Implicit Types (s : gerr.State ContextType FmtArg).
Implicit Types (w : gerr.WrapArgs FmtArg) (ws : list (gerr.WrapArgs FmtArg)).
Implicit Types (n : NewArgs FmtArg).
Implicit Types (p err : gerr.Error) (a : gerr.addr).

(** A new node without a cause, inspected in any store. *)
Lemma root_alloc h o (d : Z) :
  gerr.Cause o = None →
  gerr.chain (h ++ [o]) (Some (length h)) = [length h]
  ∧ gerr.String (h ++ [o]) (Some (length h)) = gerr.Done (gerr.spec_segment o)
  ∧ gerr.Code_of (h ++ [o]) (Some (length h)) d = gerr.Done
      (if (gerr.Code o =? 0)%Z then d else gerr.Code o).
Proof.
  intros Hc. pose proof (lookup_alloc_new h o) as Hnew.
  unfold gerr.chain, gerr.String, gerr.Code_of.
  rewrite length_app, Nat.add_1_r.
  rewrite (chain_from_S _ _ _ _ Hnew), (String_loop_S _ _ _ _ _ Hnew), Hc.
  rewrite chain_from_null, String_step_segment. split_and!; [done..|].
  simpl. rewrite Hnew. destruct (gerr.Code o =? 0)%Z; simpl; [|done].
  rewrite Hc. by destruct (length h).
Qed.

Lemma New_call_alloc n s :
  New_call fmt_format n s
  = (Some (length (gerr.heap s)), gerr.alloc (New_object fmt_format n) s).
Proof. by destruct n. Qed.

Lemma New_object_fields n :
  gerr.Cause (New_object (ContextType:=ContextType) fmt_format n) = None
  ∧ gerr.Code (New_object (ContextType:=ContextType) fmt_format n)
    = New_code_arg n
  ∧ gerr.Message (New_object (ContextType:=ContextType) fmt_format n)
    = New_message_arg fmt_format n.
Proof. by destruct n. Qed.

(** X7.  Every overload of [New], in any state, returns an error that
    is the root of its own chain.  [String] of it is the segment of the
    code and message given, and [Code] of it is the code given, or the
    default when the code is 0 or the overload takes none. *)
Theorem New_is_root n s (d : Z) :
  let r := New_call fmt_format n s in
  ∃ a, r.1 = Some a
    ∧ gerr.heap s !! a = None
    ∧ gerr.chain (gerr.heap r.2) r.1 = [a]
    ∧ gerr.String (gerr.heap r.2) r.1
      = gerr.Done (render (New_code_arg n) (New_message_arg fmt_format n))
    ∧ gerr.Code_of (gerr.heap r.2) r.1 d
      = gerr.Done (if (New_code_arg n =? 0)%Z then d else New_code_arg n).
Proof.
  intros r. subst r. rewrite New_call_alloc. unfold gerr.alloc.
  cbn [fst snd gerr.heap]. exists (length (gerr.heap s)).
  destruct (New_object_fields n) as (Hcause & Hcode & Hmsg).
  destruct (root_alloc (gerr.heap s) (New_object fmt_format n) d Hcause)
    as (Hchain & HString & HCode).
  rewrite spec_segment_render, Hcode, Hmsg in HString.
  rewrite Hcode in HCode.
  split_and!; [done|by apply lookup_ge_None|done..].
Qed.

(** X8.  The sentinel ["<EMPTY>"] is within reach of the library's own
    functions: [New] of a null or empty message, also with the code 0,
    renders as ["<EMPTY>"], and [Wrap(err, 0)] and [Wrap] with such a
    message put ["<EMPTY>"] in front of the rendering of [err]. *)
Theorem EMPTY_is_reachable (msg : option string) err s :
  gerr.heap_ok (gerr.heap s) = true → gerr.valid (gerr.heap s) err = true →
  has_text msg = false →
  (∀ n, n = new_msg msg ∨ n = new_code 0 msg →
     let r := New_call fmt_format n s in
     gerr.String (gerr.heap r.2) r.1 = gerr.Done "<EMPTY>")
  ∧ (∀ w, w = gerr.wrap_code 0 ∨ w = gerr.wrap_msg msg
          ∨ w = gerr.wrap_code_msg 0 msg →
     let wrapped := gerr.Wrap_call fmt_format err w s in
     ∃ inner, gerr.String (gerr.heap s) err = gerr.Done inner
       ∧ gerr.String (gerr.heap wrapped.2) wrapped.1 = gerr.Done
           (match err with
            | None => "<EMPTY>"
            | Some _ => "<EMPTY>:" +:+ inner
            end)).
Proof.
  intros Hok Hv Hmsg. split.
  - intros n Hn r. subst r. rewrite New_call_alloc. unfold gerr.alloc.
    cbn [fst snd gerr.heap].
    destruct (New_object_fields n) as (Hcause & Hcode & Hm).
    destruct (root_alloc (gerr.heap s) (New_object fmt_format n) 0 Hcause)
      as (_ & -> & _).
    rewrite spec_segment_render, Hcode, Hm. f_equal.
    destruct Hn as [-> | ->]; unfold render; simpl; by rewrite Hmsg.
  - intros w Hw wrapped. subst wrapped.
    exists (gerr.spec_String (gerr.heap s) err).
    split; [by apply String_chain|].
    rewrite Wrap_call_alloc. unfold gerr.alloc. cbn [fst snd gerr.heap].
    rewrite String_alloc_new by (by rewrite ?wrapper_Cause).
    rewrite wrapper_Cause, spec_segment_render, wrapper_Code,
      wrapper_Message.
    assert (render (Wrap_code_arg w) (Wrap_message_arg fmt_format w)
            = "<EMPTY>") as ->; [|done].
    destruct Hw as [-> | [-> | ->]]; unfold render; simpl;
      by rewrite ?Hmsg.
Qed.

(** X9.  [E(cause)] of a [DEFINE_ERROR] or [DEFINE_CODE_ERROR] class
    never returns the shared object of [E()]: it allocates a node whose
    [Cause()] is the pointer given.  [As] for the class returns that new
    node, and [String] renders the message of the class in front of the
    rendering of the cause. *)
Theorem E_cause_allocates (d : gerr.ErrorDecl) (dc : gerr.CodeErrorDecl)
    err s :
  gerr.state_ok s = true → gerr.valid (gerr.heap s) err = true →
  (let shared := gerr.E d s in
   let r := gerr.E_cause d err shared.2 in
   r.1 ≠ shared.1
   ∧ (∃ a, r.1 = Some a
        ∧ gerr.heap r.2 !! a = Some (gerr.DefinedError d err))
   ∧ gerr.As (gerr.Defined (gerr.ErrTypE d)) (gerr.heap r.2) r.1
     = gerr.Done r.1
   ∧ ∃ inner, gerr.String (gerr.heap s) err = gerr.Done inner
       ∧ gerr.String (gerr.heap r.2) r.1 = gerr.Done
           (match err with
            | None => render 0 (gerr.ErrMessagE d)
            | Some _ => render 0 (gerr.ErrMessagE d) +:+ ":" +:+ inner
            end))
  ∧ (let shared := gerr.E_code dc s in
     let r := gerr.E_code_cause dc err shared.2 in
     r.1 ≠ shared.1
     ∧ (∃ a, r.1 = Some a
          ∧ gerr.heap r.2 !! a = Some (gerr.DefinedCodeError dc err))
     ∧ gerr.As (gerr.Defined (gerr.codeErrTypE dc)) (gerr.heap r.2) r.1
       = gerr.Done r.1
     ∧ ∃ inner, gerr.String (gerr.heap s) err = gerr.Done inner
         ∧ gerr.String (gerr.heap r.2) r.1 = gerr.Done
             (match err with
              | None => render (gerr.codeErrCodE dc) (gerr.codeErrMessagE dc)
              | Some _ =>
                  render (gerr.codeErrCodE dc) (gerr.codeErrMessagE dc)
                  +:+ ":" +:+ inner
              end)).
Proof.
  intros Hok Hv.
  assert (∀ name (o0 o : gerr.IError ContextType FmtArg),
    gerr.Cause o0 = None → gerr.Cause o = err →
    gerr.class_of o = gerr.Defined name →
    let shared := gerr.static_local name (gerr.Make o0) s in
    let r := gerr.Make o shared.2 in
    r.1 ≠ shared.1
    ∧ (∃ a, r.1 = Some a ∧ gerr.heap r.2 !! a = Some o)
    ∧ gerr.As (gerr.Defined name) (gerr.heap r.2) r.1 = gerr.Done r.1
    ∧ ∃ inner, gerr.String (gerr.heap s) err = gerr.Done inner
        ∧ gerr.String (gerr.heap r.2) r.1 = gerr.Done
            (match err with
             | None => gerr.spec_segment o
             | Some _ => gerr.spec_segment o +:+ ":" +:+ inner
             end)) as Hgen.
  { intros name o0 o Hc0 Hc Hclass. cbv zeta.
    pose proof Hok as [Hheap Hstat]%state_ok_split.
    (* the state after [E()]: the old one, or one object more *)
    assert (∃ a0 h1, (gerr.static_local name (gerr.Make o0) s).1 = Some a0
              ∧ gerr.heap (gerr.static_local name (gerr.Make o0) s).2 = h1
              ∧ a0 < length h1 ∧ gerr.heap_ok h1 = true
              ∧ gerr.valid h1 err = true
              ∧ gerr.spec_String h1 err = gerr.spec_String (gerr.heap s) err)
      as (a0 & h1 & Hshared & Hh1 & Hlt & Hok1 & Hv1 & Hsame).
    { destruct (static_local_cases name o0 s) as [(v & Hn & ->)|[Hn ->]].
      - destruct (live_Some _ _ (Hstat name v Hn)) as (a0 & x & -> & Ha0).
        exists a0, (gerr.heap s). simpl. split_and!; try done.
        by apply lookup_lt_Some in Ha0.
      - exists (length (gerr.heap s)), (gerr.heap s ++ [o0]). simpl.
        split_and!; try done.
        + rewrite length_app. simpl. lia.
        + apply heap_ok_alloc; [done|by rewrite Hc0].
        + by apply valid_alloc.
        + unfold gerr.spec_String. by rewrite nodes_alloc. }
    rewrite Make_alloc. unfold gerr.alloc. cbn [fst snd gerr.heap].
    rewrite Hshared, Hh1. split_and!.
    - intros [= Heq]. lia.
    - eexists. split; [done|]. apply lookup_alloc_new.
    - apply (As_head _ _ _ o); [apply lookup_alloc_new|].
      rewrite Hclass. apply is_base_of_refl.
    - exists (gerr.spec_String (gerr.heap s) err).
      split; [by apply String_chain|].
      rewrite String_alloc_new by (by rewrite ?Hc). rewrite Hc, Hsame.
      done. }
  split.
  - specialize (Hgen (gerr.ErrTypE d) (gerr.DefinedError d None)
      (gerr.DefinedError d err) eq_refl eq_refl eq_refl).
    by rewrite spec_segment_render in Hgen.
  - specialize (Hgen (gerr.codeErrTypE dc) (gerr.DefinedCodeError dc None)
      (gerr.DefinedCodeError dc err) eq_refl eq_refl eq_refl).
    by rewrite spec_segment_render in Hgen.
Qed.

(** No overload of [Wrap] constructs an object of a [DEFINE_*] class. *)
Lemma wrapper_not_Defined name err w :
  gerr.is_base_of (gerr.Defined name)
    (gerr.class_of (gerr.wrapper (ContextType:=ContextType) fmt_format err w))
  = false.
Proof. by destruct w. Qed.

Lemma Wrap_all_frame (ExpectErr : gerr.ErrClass) ws :
  (∀ err w, gerr.is_base_of ExpectErr
     (gerr.class_of (gerr.wrapper (ContextType:=ContextType)
        fmt_format err w)) = false) →
  ∀ err s,
  gerr.heap_ok (gerr.heap s) = true → gerr.valid (gerr.heap s) err = true →
  let r := Wrap_all fmt_format ws err s in
  gerr.heap_ok (gerr.heap r.2) = true
  ∧ gerr.valid (gerr.heap r.2) r.1 = true
  ∧ gerr.As ExpectErr (gerr.heap r.2) r.1 = gerr.As ExpectErr (gerr.heap s) err
  ∧ (∀ a o, gerr.heap s !! a = Some o → gerr.heap r.2 !! a = Some o)
  ∧ (ws ≠ [] → ∃ a, r.1 = Some a ∧ length (gerr.heap s) ≤ a).
Proof.
  intros Hclass. induction ws as [|w ws IH]; intros err s Hok Hv; [done|].
  cbn [Wrap_all]. cbv zeta. rewrite Wrap_call_alloc.
  unfold gerr.alloc. cbn [fst snd].
  set (o := gerr.wrapper fmt_format err w).
  set (s1 := gerr.mkState (gerr.heap s ++ [o]) (gerr.statics s)).
  assert (gerr.heap_ok (gerr.heap s1) = true) as Hok1.
  { apply heap_ok_alloc; [done|]. subst o. by rewrite wrapper_Cause. }
  assert (gerr.valid (gerr.heap s1) (Some (length (gerr.heap s))) = true)
    as Hv1.
  { apply valid_bound. simpl. rewrite length_app. simpl. lia. }
  destruct (IH (Some (length (gerr.heap s))) s1 Hok1 Hv1)
    as (Hok' & Hv' & HAs & Hkeep & Hnew).
  split_and!; [done|done| | |].
  - rewrite HAs. subst s1. cbn [gerr.heap]. rewrite As_alloc_skip.
    + subst o. by rewrite wrapper_Cause.
    + done.
    + subst o. by rewrite wrapper_Cause.
    + apply Hclass.
  - intros a x Ha. apply Hkeep. simpl. by apply lookup_app_l_Some.
  - intros _. destruct ws as [|w' ws'].
    + exists (length (gerr.heap s)). by split.
    + destruct Hnew as (a & Ha & Hle); [done|]. exists a. split; [done|].
      simpl in Hle. rewrite length_app in Hle. simpl in Hle. lia.
Qed.

(** X10.  However many times an error is wrapped by [Wrap], [As] and
    [Is] for a class that a [DEFINE_*] macro declares return what they
    return on the error itself.  So the context given to [E(context)] is
    read back, through [As] and [Context()], from the outermost
    wrapper. *)
Theorem As_through_wraps (name : string) ws err s
    (dx : gerr.ContextErrorDecl ContextType FmtArg) (context : ContextType) :
  gerr.heap_ok (gerr.heap s) = true → gerr.valid (gerr.heap s) err = true →
  (let r := Wrap_all fmt_format ws err s in
   gerr.As (gerr.Defined name) (gerr.heap r.2) r.1
   = gerr.As (gerr.Defined name) (gerr.heap s) err
   ∧ gerr.Is (gerr.Defined name) (gerr.heap r.2) r.1
     = gerr.Is (gerr.Defined name) (gerr.heap s) err)
  ∧ (let made := gerr.E_context fmt_format dx context s in
     let r := Wrap_all fmt_format ws made.1 made.2 in
     ∃ found, gerr.As (gerr.Defined (gerr.ctxErrTypE dx)) (gerr.heap r.2) r.1
              = gerr.Done found
       ∧ found = made.1
       ∧ gerr.Context_at (gerr.heap r.2) found = Some context
       ∧ (ws ≠ [] → r.1 ≠ found)).
Proof.
  intros Hok Hv. split.
  - destruct (Wrap_all_frame (gerr.Defined name) ws
      (wrapper_not_Defined name) err s Hok Hv) as (_ & _ & HAs & _).
    cbv zeta. unfold gerr.Is. by rewrite HAs.
  - cbv zeta. unfold gerr.E_context. rewrite Make_alloc.
    unfold gerr.alloc. cbn [fst snd].
    set (o := gerr.DefinedContextError dx None context _).
    set (s1 := gerr.mkState (gerr.heap s ++ [o]) (gerr.statics s)).
    assert (gerr.heap_ok (gerr.heap s1) = true) as Hok1
      by (by apply heap_ok_alloc).
    assert (gerr.valid (gerr.heap s1) (Some (length (gerr.heap s))) = true)
      as Hv1.
    { apply valid_bound. simpl. rewrite length_app. simpl. lia. }
    destruct (Wrap_all_frame (gerr.Defined (gerr.ctxErrTypE dx)) ws
      (wrapper_not_Defined _) (Some (length (gerr.heap s))) s1 Hok1 Hv1)
      as (_ & _ & HAs & Hkeep & Hnew).
    exists (Some (length (gerr.heap s))). split_and!; [|done| |].
    + rewrite HAs. apply (As_head _ _ _ o); [apply lookup_alloc_new|].
      apply is_base_of_refl.
    + unfold gerr.Context_at.
      by rewrite (Hkeep _ o (lookup_alloc_new (gerr.heap s) o)).
    + intros Hws. destruct (Hnew Hws) as (a & -> & Hle). intros [= ->].
      simpl in Hle. rewrite length_app in Hle. simpl in Hle. lia.
Qed.

End Layers.

(** ** More on [Try] *)

Section MoreTry.

Context {ValueType : Type}.
Variable ValueType_init : ValueType.
Implicit Types (t src : mylib.Try ValueType) (v val : ValueType).
Implicit Types (e err : gerr.Error).

(** X14.  A [Try] obtained from the constructors and from [Assign],
    [ClearValue] and [ClearError] has one side populated: it is in
    exactly one of the success and failure states, [operator bool]
    agrees with [IsSuccess()], and in the failure state [Value()] is
    the value-initialised [ValueType]. *)
Theorem Try_reachable_one_side t :
  Try_reachable ValueType_init t →
  mylib.IsFailure t = negb (mylib.IsSuccess t)
  ∧ mylib.to_bool t = mylib.IsSuccess t
  ∧ (mylib.IsSuccess t = true ↔ mylib.Error t = None)
  ∧ (mylib.IsFailure t = true → mylib.Value t = ValueType_init).
Proof.
  intros Hreach. split_and!; [apply IsFailure_negb|done| |].
  - unfold mylib.IsSuccess. apply bool_decide_eq_true.
  - assert (mylib.exclusive ValueType_init t) as Hex.
    { induction Hreach as [val|err|src _ IH|t _ _|t _ _|t err _ IH
                          |t newValue _ _|t src _ _ _ IH].
      - apply exclusive_Try_value.
      - apply exclusive_Try_error.
      - by apply exclusive_Try_copy.
      - by intros _.
      - by intros H.
      - rewrite Assign_error_replaces by done. apply exclusive_Try_error.
      - rewrite Assign_value_replaces. apply exclusive_Try_value.
      - by apply exclusive_Assign_try. }
    unfold mylib.IsFailure. rewrite bool_decide_eq_true. apply Hex.
Qed.

(** X15.  [Assign] of an error to a [Try] in the failure state does not
    touch the value side: [ClearValue()] is not called.  With the null
    error the wrapper ends in the success state, [Value()] being what
    the value side held. *)
Theorem Assign_error_on_failure t err :
  mylib.IsFailure t = true →
  let t' := mylib.Assign_error ValueType_init t err in
  mylib.Value t' = mylib.Value t
  ∧ mylib.Error t' = err
  ∧ (mylib.IsSuccess t' = true ↔ err = None)
  ∧ mylib.assign_error_op ValueType_init t err = t'.
Proof.
  intros Hf t'. subst t'. unfold mylib.assign_error_op, mylib.Assign_error.
  rewrite IsFailure_negb in Hf. apply negb_true_iff in Hf. rewrite Hf.
  split_and!; try done. unfold mylib.IsSuccess. apply bool_decide_eq_true.
Qed.

End MoreTry.

(** ** The example programs *)

Section Programs.

Implicit Types (s : fake.State).

(** A node without a cause, inspected where it lies. *)
Lemma root_inspect {ContextType FmtArg : Type}
    (h : gerr.Heap ContextType FmtArg) a o
    (ExpectErr : gerr.ErrClass) (code d : Z) :
  h !! a = Some o → gerr.Cause o = None →
  gerr.As ExpectErr h (Some a) = gerr.Done
    (if gerr.is_base_of ExpectErr (gerr.class_of o) then Some a else None)
  ∧ gerr.AsCode code h (Some a) = gerr.Done
      (if (gerr.Code o =? code)%Z then Some a else None)
  ∧ gerr.String h (Some a) = gerr.Done (gerr.spec_segment o)
  ∧ gerr.Code_of h (Some a) d = gerr.Done
      (if (gerr.Code o =? 0)%Z then d else gerr.Code o).
Proof.
  intros Ha Hc. pose proof (lookup_lt_Some _ _ _ Ha) as Hlt.
  unfold gerr.As, gerr.AsCode, gerr.String, gerr.Code_of.
  destruct (length h) as [|n]; [lia|].
  rewrite (String_loop_S _ _ _ _ _ Ha), Hc, String_step_segment.
  simpl. rewrite Ha, Hc. unfold gerr.dynamic_pointer_cast.
  split_and!; [| |done|].
  - destruct (gerr.is_base_of _ _); [done|by destruct n].
  - destruct (gerr.Code o =? code)%Z; [done|by destruct n].
  - destruct (gerr.Code o =? 0)%Z; simpl; [by destruct n|done].
Qed.

Lemma quot_is_int (a b : Z) :
  simpletry.is_int a → b ≠ 0%Z → (a ≠ simpletry.INT_MIN ∨ b ≠ (-1)%Z) →
  simpletry.is_int (Z.quot a b).
Proof.
  unfold simpletry.is_int, simpletry.INT_MIN, simpletry.INT_MAX.
  intros Ha Hb Hx.
  destruct (Z.eq_dec b 1%Z) as [->|Hb1]; [rewrite Z.quot_1_r; lia|].
  destruct (Z.eq_dec b (-1)%Z) as [->|Hb2].
  { change (-1)%Z with (- (1))%Z. rewrite Z.quot_opp_r, Z.quot_1_r by lia.
    lia. }
  assert (Z.abs (Z.quot a b) ≤ 2 ^ 30)%Z as Habs; [|lia].
  rewrite <- Z.quot_abs by assumption.
  rewrite Z.quot_div_nonneg by lia.
  apply Z.div_le_upper_bound; lia.
Qed.

(** X16.  For [int] arguments, [SafeDiv(a, b)] returns a failure
    exactly when [b] is 0: one node, rendered ["div 0"], without a
    code, the value side being 0.  For [INT_MIN] and -1 the division
    has undefined behaviour.  In every other case it returns a success
    holding the quotient truncated toward zero, which is an [int], and
    allocates nothing. *)
Theorem SafeDiv_fails_on_zero {ContextType FmtArg : Type}
    (a b : Z) (s : gerr.State ContextType FmtArg) :
  simpletry.is_int a → simpletry.is_int b →
  (b = 0%Z →
   ∃ t st, simpletry.SafeDiv a b s = simpletry.Defined_value (t, st)
     ∧ mylib.IsFailure t = true ∧ mylib.IsSuccess t = false
     ∧ mylib.Value t = 0%Z
     ∧ gerr.String (gerr.heap st) (mylib.Error t) = gerr.Done "div 0"
     ∧ gerr.Code_of_default (gerr.heap st) (mylib.Error t)
       = gerr.Done (-1)%Z)
  ∧ (a = simpletry.INT_MIN ∧ b = (-1)%Z →
     simpletry.SafeDiv a b s = simpletry.Undefined_behaviour)
  ∧ (b ≠ 0%Z → ¬ (a = simpletry.INT_MIN ∧ b = (-1)%Z) →
     simpletry.SafeDiv a b s
     = simpletry.Defined_value (mylib.Try_value (Z.quot a b), s)
     ∧ mylib.IsSuccess (mylib.Try_value (Z.quot a b)) = true
     ∧ mylib.IsFailure (mylib.Try_value (Z.quot a b)) = false
     ∧ simpletry.is_int (Z.quot a b)
     ∧ (Z.abs (Z.quot a b) * Z.abs b ≤ Z.abs a)%Z
     ∧ (Z.abs a < (Z.abs (Z.quot a b) + 1) * Z.abs b)%Z
     ∧ (0 ≤ Z.quot a b * (a * b))%Z).
Proof.
  intros Ha Hb. unfold simpletry.SafeDiv, simpletry.int_div. split_and!.
  - intros ->. rewrite Z.eqb_refl. unfold gerr.New. rewrite Make_alloc.
    eexists _, _. split; [done|]. unfold gerr.alloc, mylib.Error.
    cbn [mylib.second gerr.heap mylib.Try_error].
    destruct (root_alloc (gerr.heap s)
      (gerr.RawStrMessageError (ContextType:=ContextType) (FmtArg:=FmtArg)
         (Some "div 0")) (-1)%Z eq_refl) as (_ & HString & HCode).
    split_and!; [done..|exact HString|exact HCode].
  - intros [-> ->]. done.
  - intros Hb0 Hover.
    rewrite (proj2 (Z.eqb_neq b 0)) by done.
    assert ((a =? simpletry.INT_MIN)%Z && (b =? -1)%Z = false) as ->.
    { apply andb_false_iff.
      destruct (Z.eq_dec a simpletry.INT_MIN) as [Ha'|Ha'];
        [right|left]; apply Z.eqb_neq; [|done].
      intros ->. by apply Hover. }
    assert (a ≠ simpletry.INT_MIN ∨ b ≠ (-1)%Z) as Hx.
    { destruct (Z.eq_dec a simpletry.INT_MIN) as [Ha'|Ha']; [right|by left].
      intros ->. by apply Hover. }
    pose proof (Z.quot_rem' a b) as Hqr.
    pose proof (Z.rem_bound_abs a b Hb0) as Hrem.
    split_and!; [done..|by apply quot_is_int| | |].
    + rewrite <-Z.abs_mul, Z.mul_comm.
      destruct (Z.le_ge_cases 0 a) as [Hpos|Hneg].
      * pose proof (Z.mul_quot_le a b Hpos Hb0). lia.
      * pose proof (Z.mul_quot_ge a b Hneg Hb0). lia.
    + assert (Z.abs a = Z.abs (Z.quot a b) * Z.abs b + Z.abs (Z.rem a b))%Z
        as Habs; [|lia].
      rewrite <-Z.abs_mul.
      destruct (Z.le_ge_cases 0 a) as [Hpos|Hneg].
      * pose proof (Z.mul_quot_le a b Hpos Hb0).
        pose proof (Z.rem_nonneg a b Hb0 Hpos). lia.
      * pose proof (Z.mul_quot_ge a b Hneg Hb0).
        pose proof (Z.rem_nonpos a b Hb0 Hneg). lia.
    + destruct (Z.le_ge_cases 0 a) as [Hpos|Hneg].
      * pose proof (Z.mul_quot_le a b Hpos Hb0). nia.
      * pose proof (Z.mul_quot_ge a b Hneg Hb0). nia.
Qed.

End Programs.

(** *** [MyFakeAPI::Call] and [CheckArguments] of [simpleerr] *)

Section Callers.

Variable fmt_format : string → list fake.FmtArg → string.
Implicit Types (s : fake.State).
Implicit Types (o : gerr.IError fake.LERandErrorContext fake.FmtArg).

Lemma singleton_ok_spec name (code : Z) s :
  MyFakeAPI.singleton_ok name code s = true ↔
  ∀ v, gerr.statics s !! name = Some v →
    ∃ a o, v = Some a ∧ gerr.heap s !! a = Some o
      ∧ gerr.class_of o = gerr.Defined name ∧ gerr.Code o = code
      ∧ gerr.Cause o = None.
Proof.
  unfold MyFakeAPI.singleton_ok.
  destruct (gerr.statics s !! name) as [[a|]|] eqn:Hs.
  - destruct (gerr.heap s !! a) as [o|] eqn:Ha.
    + rewrite !andb_true_iff, !bool_decide_eq_true, Z.eqb_eq. split.
      * intros [[Hc Hcode] Hcause] v [= <-]. by exists a, o.
      * intros Hv. destruct (Hv _ eq_refl) as (a' & o' & [= <-] & Ha' & H).
        rewrite Ha in Ha'. injection Ha' as <-.
        destruct H as (Hc & Hcode & Hcause). by split_and!.
    + split; [done|]. intros Hv.
      destruct (Hv _ eq_refl) as (a' & o' & [= <-] & Ha' & _). congruence.
  - split; [done|]. intros Hv.
    by destruct (Hv _ eq_refl) as (a' & o' & [=] & _).
  - split; [by intros _ v [=]|done].
Qed.

(** An allocation keeps the singletons. *)
Lemma singleton_ok_alloc name (code : Z) o s :
  gerr.state_ok s = true →
  MyFakeAPI.singleton_ok name code s = true →
  MyFakeAPI.singleton_ok name code (gerr.alloc o s) = true.
Proof.
  intros Hok Hs. apply singleton_ok_spec. intros v Hv. simpl in Hv.
  destruct (proj1 (singleton_ok_spec name code s) Hs v Hv)
    as (a & x & -> & Ha & H).
  exists a, x. split_and!; [done| |apply H..].
  simpl. by apply lookup_app_l_Some.
Qed.

(** [E()] keeps the singletons and returns the singleton of its
    class. *)
Lemma singleton_step name (code : Z) other (ocode : Z) o s :
  name ≠ other → gerr.state_ok s = true →
  MyFakeAPI.singleton_ok name code s = true →
  MyFakeAPI.singleton_ok other ocode s = true →
  gerr.class_of o = gerr.Defined name → gerr.Code o = code →
  gerr.Cause o = None →
  let r := gerr.static_local name (gerr.Make o) s in
  gerr.state_ok r.2 = true
  ∧ MyFakeAPI.singleton_ok name code r.2 = true
  ∧ MyFakeAPI.singleton_ok other ocode r.2 = true
  ∧ ∃ a o', r.1 = Some a ∧ gerr.heap r.2 !! a = Some o'
      ∧ gerr.class_of o' = gerr.Defined name ∧ gerr.Code o' = code
      ∧ gerr.Cause o' = None.
Proof.
  intros Hne Hok Hname Hother Hclass Hcode Hcause r. subst r.
  destruct (static_local_cases name o s) as [(v & Hv & ->)|[Hn ->]]; simpl.
  - split_and!; [done..|].
    destruct (proj1 (singleton_ok_spec name code s) Hname v Hv)
      as (a & x & -> & Ha & H).
    by exists a, x.
  - pose proof Hok as [Hheap Hstat]%state_ok_split. split_and!.
    + apply state_ok_split. simpl. split.
      * apply heap_ok_alloc; [done|by rewrite Hcause].
      * intros k v Hk. destruct (decide (name = k)) as [->|Hk'].
        -- rewrite lookup_insert_eq in Hk. injection Hk as <-. apply live_new.
        -- rewrite lookup_insert_ne in Hk by done. apply live_alloc.
           by apply (Hstat k).
    + apply singleton_ok_spec. simpl. intros v Hv.
      rewrite lookup_insert_eq in Hv. injection Hv as <-.
      exists (length (gerr.heap s)), o.
      split_and!; [done|apply lookup_alloc_new|done..].
    + apply singleton_ok_spec. simpl. intros v Hv.
      rewrite lookup_insert_ne in Hv by done.
      destruct (proj1 (singleton_ok_spec other ocode s) Hother v Hv)
        as (a & x & -> & Ha & H).
      exists a, x. split_and!; [done| |apply H..].
      by apply lookup_app_l_Some.
    + exists (length (gerr.heap s)), o.
      split_and!; [done|apply lookup_alloc_new|done..].
Qed.

Lemma fake_state_ok_split s :
  MyFakeAPI.state_ok s = true ↔
  gerr.state_ok s = true
  ∧ MyFakeAPI.singleton_ok "ErrArgumentNeg" 1000001 s = true
  ∧ MyFakeAPI.singleton_ok "ErrArgumentZero" 0 s = true.
Proof.
  unfold MyFakeAPI.state_ok. rewrite !andb_true_iff. split.
  - by intros [[H1 H2] H3].
  - by intros (H1 & H2 & H3).
Qed.

(** What [Call] returns, branch by branch: null, or a pointer to a node
    without a cause, of the class and with the code and context of the
    branch. *)
Lemma Call_result (r1 r2 x : Z) s :
  MyFakeAPI.state_ok s = true →
  let r := MyFakeAPI.Call fmt_format r1 r2 x s in
  let root := λ name (code : Z) context,
    ∃ a o, r.1 = Some a ∧ gerr.heap r.2 !! a = Some o
      ∧ gerr.Cause o = None ∧ gerr.class_of o = gerr.Defined name
      ∧ gerr.Code o = code
      ∧ ∀ ctx, context = Some ctx → gerr.Context o = Some ctx in
  MyFakeAPI.state_ok r.2 = true
  ∧ (((x < 0)%Z ∧ root "ErrArgumentNeg" 1000001%Z None)
     ∨ (x = 0%Z ∧ root "ErrArgumentZero" 0%Z None)
     ∨ ((0 < x ≤ r1)%Z
        ∧ root "ErrLERandNum1" 0%Z (Some (fake.mkLERandErrorContext r1 r2)))
     ∨ ((0 < x)%Z ∧ (r1 < x ≤ r2)%Z
        ∧ root "ErrLERandNum2" 1000002%Z
            (Some (fake.mkLERandErrorContext r1 r2)))
     ∨ ((0 < x)%Z ∧ (r1 < x)%Z ∧ (r2 < x)%Z ∧ r = (None, s))).
Proof.
  intros (Hok & Hneg & Hzero)%fake_state_ok_split r root. subst r root.
  unfold MyFakeAPI.Call.
  destruct (x <? 0)%Z eqn:H1; [apply Z.ltb_lt in H1|apply Z.ltb_ge in H1].
  { destruct (singleton_step "ErrArgumentNeg" 1000001 "ErrArgumentZero" 0
      (gerr.DefinedCodeError fake.ErrArgumentNeg None) s)
      as (Hok' & Hn' & Hz' & a & o & Hr & Ha & Hclass & Hcode & Hcause);
      try done.
    split; [by apply fake_state_ok_split|]. left. split; [done|].
    exists a, o. by split_and!. }
  destruct (x =? 0)%Z eqn:H2; [apply Z.eqb_eq in H2|apply Z.eqb_neq in H2].
  { destruct (singleton_step "ErrArgumentZero" 0 "ErrArgumentNeg" 1000001
      (gerr.DefinedError fake.ErrArgumentZero None) s)
      as (Hok' & Hz' & Hn' & a & o & Hr & Ha & Hclass & Hcode & Hcause);
      try done.
    split; [by apply fake_state_ok_split|]. right. left. split; [done|].
    exists a, o. by split_and!. }
  destruct (x <=? r1)%Z eqn:H3; [apply Z.leb_le in H3|apply Z.leb_gt in H3].
  { unfold gerr.E_context. rewrite Make_alloc. cbn [fst snd]. split.
    - apply fake_state_ok_split. split_and!.
      + apply (construct_state_ok fmt_format (gerr.call_Make _) s Hok).
        simpl. by apply Forall_singleton.
      + by apply singleton_ok_alloc.
      + by apply singleton_ok_alloc.
    - do 2 right. left. split; [lia|]. eexists _, _.
      split_and!; [done|apply lookup_alloc_new|done..|by intros ? [= <-]]. }
  destruct (x <=? r2)%Z eqn:H4; [apply Z.leb_le in H4|apply Z.leb_gt in H4].
  { unfold gerr.E_code_context. rewrite Make_alloc. cbn [fst snd]. split.
    - apply fake_state_ok_split. split_and!.
      + apply (construct_state_ok fmt_format (gerr.call_Make _) s Hok).
        simpl. by apply Forall_singleton.
      + by apply singleton_ok_alloc.
      + by apply singleton_ok_alloc.
    - do 3 right. left. split_and!; [lia..|]. eexists _, _.
      split_and!; [done|apply lookup_alloc_new|done..|by intros ? [= <-]]. }
  split; [by apply fake_state_ok_split|]. do 4 right.
  split_and!; [lia..|done].
Qed.

(** [Code], [IsCode], [Is] and [As] on a node without a cause whose
    class and code are known. *)
Lemma root_facts (r : gerr.Error * fake.State) a o name (code c : Z)
    (ExpectErr : gerr.ErrClass) :
  r.1 = Some a → gerr.heap r.2 !! a = Some o → gerr.Cause o = None →
  gerr.class_of o = gerr.Defined name → gerr.Code o = code →
  gerr.Code_of_default (gerr.heap r.2) r.1
  = gerr.Done (if (code =? 0)%Z then (-1)%Z else code)
  ∧ gerr.IsCode c (gerr.heap r.2) r.1 = gerr.Done (code =? c)%Z
  ∧ gerr.As ExpectErr (gerr.heap r.2) r.1 = gerr.Done
      (if gerr.is_base_of ExpectErr (gerr.Defined name) then r.1 else None)
  ∧ gerr.Is ExpectErr (gerr.heap r.2) r.1
    = gerr.Done (gerr.is_base_of ExpectErr (gerr.Defined name)).
Proof.
  intros Hr Ha Hcause Hclass Hcode.
  destruct (root_inspect (gerr.heap r.2) a o ExpectErr c (-1) Ha Hcause)
    as (HAs & HAsCode & _ & HCode).
  unfold gerr.Code_of_default, gerr.IsCode, gerr.Is.
  rewrite Hr, HAs, HAsCode, HCode, Hclass, Hcode.
  split_and!; [done| |done|].
  - by destruct (code =? c)%Z.
  - by destruct (gerr.is_base_of ExpectErr (gerr.Defined name)).
Qed.

(** X17.  [MyFakeAPI::Call(x)] returns the null error exactly when [x]
    is positive and above both numbers drawn, so always when [x] is
    above 3.  [Code] of its result is 1000001 for a negative [x], the
    default -1 for 0 and for a positive [x] up to the first number,
    1000002 for an [x] above the first number and up to the second, and
    0 otherwise.  No result has the code 123; [Is<ErrArgumentZero>] holds
    for 0 only; [As<ErrLERandNum1>] finds the error exactly for a
    positive [x] up to the first number, and its context is the two
    numbers.  The call keeps the singletons of [E()] in place. *)
Theorem Call_classification (r1 r2 x : Z) s :
  MyFakeAPI.state_ok s = true →
  let r := MyFakeAPI.Call fmt_format r1 r2 x s in
  let h := gerr.heap r.2 in
  MyFakeAPI.state_ok r.2 = true
  ∧ (r.1 = None ↔ (0 < x ∧ r1 < x ∧ r2 < x)%Z)
  ∧ gerr.Code_of_default h r.1 = gerr.Done
      (if (x <? 0)%Z then 1000001
       else if (x =? 0)%Z then -1
       else if (x <=? r1)%Z then -1
       else if (x <=? r2)%Z then 1000002
       else 0)%Z
  ∧ gerr.IsCode 123 h r.1 = gerr.Done false
  ∧ gerr.Is (gerr.Defined "ErrArgumentZero") h r.1 = gerr.Done (x =? 0)%Z
  ∧ gerr.As (gerr.Defined "ErrLERandNum1") h r.1
    = gerr.Done (if (0 <? x)%Z && (x <=? r1)%Z then r.1 else None)
  ∧ ((0 < x ≤ r1)%Z →
     gerr.Context_at h r.1 = Some (fake.mkLERandErrorContext r1 r2))
  ∧ ((0 ≤ r1 ≤ 3)%Z → (0 ≤ r2 ≤ 3)%Z → (3 < x)%Z → r.1 = None).
Proof.
  intros Hs r h. subst h.
  destruct (Call_result r1 r2 x s Hs) as [Hs' Hcases].
  cbv zeta in Hcases. fold r in Hs', Hcases. clearbody r.
  split; [done|].
  assert (∀ name (code : Z) context,
    (∃ a o, r.1 = Some a ∧ gerr.heap r.2 !! a = Some o
       ∧ gerr.Cause o = None ∧ gerr.class_of o = gerr.Defined name
       ∧ gerr.Code o = code
       ∧ ∀ ctx, context = Some ctx → gerr.Context o = Some ctx) →
    r.1 ≠ None
    ∧ gerr.Code_of_default (gerr.heap r.2) r.1
      = gerr.Done (if (code =? 0)%Z then (-1)%Z else code)
    ∧ gerr.IsCode 123 (gerr.heap r.2) r.1 = gerr.Done (code =? 123)%Z
    ∧ gerr.Is (gerr.Defined "ErrArgumentZero") (gerr.heap r.2) r.1
      = gerr.Done (gerr.is_base_of (gerr.Defined "ErrArgumentZero")
                     (gerr.Defined name))
    ∧ gerr.As (gerr.Defined "ErrLERandNum1") (gerr.heap r.2) r.1
      = gerr.Done (if gerr.is_base_of (gerr.Defined "ErrLERandNum1")
                        (gerr.Defined name) then r.1 else None)
    ∧ ∀ ctx, context = Some ctx →
        gerr.Context_at (gerr.heap r.2) r.1 = Some ctx) as Hroot.
  { intros name code context (a & o & Hr & Ha & Hcause & Hclass & Hcode & Hctx).
    destruct (root_facts r a o name code 123
      (gerr.Defined "ErrArgumentZero") Hr Ha Hcause Hclass Hcode)
      as (HCode & HIsCode & _ & HIs).
    destruct (root_facts r a o name code 123
      (gerr.Defined "ErrLERandNum1") Hr Ha Hcause Hclass Hcode)
      as (_ & _ & HAs & _).
    split_and!; [by rewrite Hr|done..|].
    intros ctx Hc. unfold gerr.Context_at. rewrite Hr, Ha. by apply Hctx. }
  destruct Hcases as [[Hx Hr]|[[Hx Hr]|[[Hx Hr]|[(Hx & Hx' & Hr)
                     |(Hx & Hx1 & Hx2 & Hr)]]]].
  1-4: destruct (Hroot _ _ _ Hr) as (Hne & -> & -> & -> & -> & Hctx);
    clear Hroot Hr.
  - rewrite (proj2 (Z.ltb_lt x 0)), (proj2 (Z.eqb_neq x 0)),
      (proj2 (Z.ltb_ge 0 x)) by lia.
    split_and!; [split; [done|lia]|done..|lia|lia].
  - subst x. split_and!; [split; [done|lia]|done..|lia|lia].
  - rewrite (proj2 (Z.ltb_ge x 0)), (proj2 (Z.eqb_neq x 0)),
      (proj2 (Z.ltb_lt 0 x)), (proj2 (Z.leb_le x r1)) by lia.
    split_and!; [split; [done|lia]|done..| |lia].
    intros _. by apply Hctx.
  - rewrite (proj2 (Z.ltb_ge x 0)), (proj2 (Z.eqb_neq x 0)),
      (proj2 (Z.ltb_lt 0 x)), (proj2 (Z.leb_gt x r1)),
      (proj2 (Z.leb_le x r2)) by lia.
    split_and!; [split; [done|lia]|done..|lia|lia].
  - rewrite Hr. simpl.
    rewrite (proj2 (Z.ltb_ge x 0)), (proj2 (Z.eqb_neq x 0)),
      (proj2 (Z.ltb_lt 0 x)), (proj2 (Z.leb_gt x r1)),
      (proj2 (Z.leb_gt x r2)) by lia.
    split_and!; [done..|lia|done].
Qed.

Lemma fresh_pair (h : gerr.Heap fake.LERandErrorContext fake.FmtArg) o1 o2
    (d : Z) :
  gerr.Cause o1 = None → gerr.Code o1 = 0%Z →
  gerr.Cause o2 = Some (length h) → gerr.Code o2 = 0%Z →
  let h2 := (h ++ [o1]) ++ [o2] in
  gerr.Code_of h2 (Some (S (length h))) d = gerr.Done d
  ∧ gerr.chain h2 (Some (S (length h))) = [S (length h); length h].
Proof.
  intros Hc1 Hz1 Hc2 Hz2 h2.
  assert (h2 !! S (length h) = Some o2) as H2.
  { subst h2. replace (S (length h)) with (length (h ++ [o1]))
      by (rewrite length_app; simpl; lia). apply lookup_alloc_new. }
  assert (h2 !! length h = Some o1) as H1.
  { subst h2. apply lookup_app_l_Some, lookup_alloc_new. }
  assert (length h2 = S (S (length h))) as Hlen.
  { subst h2. rewrite !length_app. simpl. lia. }
  unfold gerr.Code_of, gerr.chain. rewrite Hlen. split.
  - simpl. rewrite H2, Hz2, Hc2. simpl. rewrite H1, Hz1, Hc1. simpl.
    by destruct (length h).
  - rewrite (chain_from_S _ _ _ _ H2), Hc2, (chain_from_S _ _ _ _ H1), Hc1.
    by rewrite chain_from_null.
Qed.

(** X18.  [CheckArguments] returns the null error exactly when [argc]
    is 2 and [std::stoi] accepts [argv[1]], and then allocates nothing.
    Its error is one node for a wrong [argc] and two nodes, the
    conversion error wrapped once, for a rejected argument.  No node
    carries a code, so [Code] of the result, with the default argument,
    is -1 for every error and 0 for the null error. *)
Theorem CheckArguments_status (stoi : string → option string) (argc : Z)
    (argv : list string) s :
  let argv1 := default "" (argv !! 1) in
  let r := simpleerr.CheckArguments fmt_format stoi argc argv s in
  (r.1 = None ↔ argc = 2%Z ∧ stoi argv1 = None)
  ∧ (r.1 = None → r.2 = s)
  ∧ length (gerr.chain (gerr.heap r.2) r.1)
    = (if (argc =? 2)%Z
       then match stoi argv1 with None => 0 | Some _ => 2 end
       else 1)
  ∧ gerr.Code_of_default (gerr.heap r.2) r.1 = gerr.Done
      (if (argc =? 2)%Z
       then match stoi argv1 with None => 0 | Some _ => -1 end
       else -1)%Z.
Proof.
  intros argv1 r. subst r. unfold simpleerr.CheckArguments.
  fold argv1. unfold simpleerr.CheckArgumentValue.
  destruct (argc =? 2)%Z eqn:Hargc; cbn [negb];
    [apply Z.eqb_eq in Hargc|apply Z.eqb_neq in Hargc].
  - destruct (stoi argv1) as [what|] eqn:Hstoi.
    + unfold gerr.New_format, gerr.Wrap_format. rewrite !Make_alloc.
      cbn [fst snd]. unfold gerr.alloc.
      cbn [fst snd gerr.heap].
      replace (length (gerr.heap s ++ [gerr.MessageError
        (fmt_format "conv exception:{}"
           [fake.arg_str argv1; fake.arg_str what])]))
        with (S (length (gerr.heap s))) by (rewrite length_app; simpl; lia).
      destruct (fresh_pair (gerr.heap s)
        (gerr.MessageError (fmt_format "conv exception:{}"
           [fake.arg_str argv1; fake.arg_str what]))
        (gerr.MessageSubError
           (fmt_format "CheckArgumentValue(argv[1]({}))"
              [fake.arg_str argv1]) (Some (length (gerr.heap s))))
        (-1) eq_refl eq_refl eq_refl eq_refl) as [HCode Hchain].
      unfold gerr.Code_of_default. rewrite HCode, Hchain.
      split_and!; try done. split; [done|by intros [_ [=]]].
    + cbn [fst snd]. rewrite chain_null. by split_and!.
  - unfold gerr.New_format. rewrite Make_alloc. unfold gerr.alloc.
    cbn [fst snd gerr.heap].
    destruct (root_alloc (gerr.heap s)
      (gerr.MessageError (ContextType:=fake.LERandErrorContext)
         (fmt_format "argc({}) != 2" [fake.arg_int argc]))
      (-1) eq_refl) as (Hchain & _ & HCode).
    unfold gerr.Code_of_default. rewrite HCode, Hchain.
    split_and!; try done. split; [done|by intros [? _]].
Qed.

End Callers.

(** ** The further theorems at the errors of the examples *)

(** [Is<ErrArgumentNeg>] on the wrapped error of [MyFakeAPI::Call(-1)]. *)
Lemma Is_node_of_class_witness :
  let h := gerr.heap fake.Call_neg_wrapped.2 in
  let err := fake.Call_neg_wrapped.1 in
  gerr.heap_ok h = true ∧ gerr.valid h err = true
  ∧ ∃ b, gerr.Is (gerr.Defined "ErrArgumentNeg") h err = gerr.Done b
      ∧ (b = true ↔
         ∃ o, o ∈ gerr.nodes h err
           ∧ gerr.is_base_of (gerr.Defined "ErrArgumentNeg")
               (gerr.class_of o) = true).
Proof.
  split; [reflexivity|]. split; [reflexivity|].
  destruct (Is_node_of_class (gerr.Defined "ErrArgumentNeg")
              (gerr.heap fake.Call_neg_wrapped.2) fake.Call_neg_wrapped.1
              eq_refl eq_refl) as (b & HIs & Hiff & _).
  exists b. split; [exact HIs|exact Hiff].
Defined.

(** The error of [CheckArguments], before and after [Call(-1)] and the
    wrap of its result. *)
Lemma constructions_preserve_errors_witness :
  let s := fake.CheckArguments.2 in
  let cs := [gerr.call_E_code fake.ErrArgumentNeg;
             gerr.call_Wrap (Some 2) (gerr.wrap_msg (Some "call failed"))] in
  let p := fake.CheckArguments.1 in
  gerr.state_ok s = true ∧ gerr.args_valid fake.format cs s
  ∧ gerr.valid (gerr.heap s) p = true
  ∧ gerr.String (gerr.heap (gerr.construct_all fake.format cs s)) p
    = gerr.String (gerr.heap s) p.
Proof.
  assert (gerr.args_valid fake.format
            [gerr.call_E_code fake.ErrArgumentNeg;
             gerr.call_Wrap (Some 2) (gerr.wrap_msg (Some "call failed"))]
            fake.CheckArguments.2) as Hargs.
  { split; [constructor|]. split; [|exact I].
    constructor; [|constructor]. vm_compute. constructor. }
  split; [reflexivity|]. split; [exact Hargs|]. split; [reflexivity|].
  exact (proj1 (proj2 (proj2 (constructions_preserve_errors fake.format
    gerr.IError_base 0 0 _ fake.CheckArguments.2 fake.CheckArguments.1
    eq_refl Hargs eq_refl)))).
Defined.

(** [Wrap(err, "call failed")] on the error of [Call(-1)]. *)
Lemma String_of_Wrap_witness :
  let s := fake.Call_neg.2 in
  let err := fake.Call_neg.1 in
  let wrapped := gerr.Wrap_call fake.format err
                   (gerr.wrap_msg (Some "call failed")) s in
  gerr.heap_ok (gerr.heap s) = true ∧ gerr.valid (gerr.heap s) err = true
  ∧ ∃ inner, gerr.String (gerr.heap s) err = gerr.Done inner
      ∧ gerr.String (gerr.heap wrapped.2) wrapped.1
        = gerr.Done ("call failed" +:+ ":" +:+ inner).
Proof.
  split; [reflexivity|]. split; [reflexivity|].
  exact (String_of_Wrap fake.format (gerr.wrap_msg (Some "call failed"))
           fake.Call_neg.1 fake.Call_neg.2 eq_refl eq_refl).
Defined.

(** [Wrap(err, 7)] on the same error, and on the null error. *)
Lemma Code_of_Wrap_witness :
  let s := fake.Call_neg.2 in
  let wrapped := gerr.Wrap_call fake.format fake.Call_neg.1
                   (gerr.wrap_code 7) s in
  let wrapped' := gerr.Wrap_call fake.format None
                    (gerr.wrap_msg (Some "top")) s in
  gerr.heap_ok (gerr.heap s) = true
  ∧ gerr.valid (gerr.heap s) fake.Call_neg.1 = true
  ∧ gerr.Code_of (gerr.heap wrapped.2) wrapped.1 (-1) = gerr.Done 7%Z
  ∧ gerr.Code_of (gerr.heap wrapped'.2) wrapped'.1 (-1) = gerr.Done (-1)%Z.
Proof.
  split; [reflexivity|]. split; [reflexivity|].
  destruct (Code_of_Wrap fake.format (gerr.wrap_code 7) fake.Call_neg.1
              fake.Call_neg.2 (-1) eq_refl eq_refl) as (inner & _ & H).
  destruct (Code_of_Wrap fake.format (gerr.wrap_msg (Some "top")) None
              fake.Call_neg.2 (-1) eq_refl eq_refl) as (inner' & _ & H').
  split; [exact H|exact H'].
Defined.

(** [Code] with the default -1 on the wrapped error of [Call(-1)]. *)
Lemma Code_zero_only_null_witness :
  let h := gerr.heap fake.Call_neg_wrapped.2 in
  let err := fake.Call_neg_wrapped.1 in
  gerr.heap_ok h = true ∧ gerr.valid h err = true ∧ (-1)%Z ≠ 0%Z
  ∧ (gerr.Code_of_default h err = gerr.Done 0%Z ↔ err = None).
Proof.
  assert ((-1)%Z ≠ 0%Z) as Hd by discriminate.
  split; [reflexivity|]. split; [reflexivity|]. split; [exact Hd|].
  exact (proj2 (Code_zero_only_null (gerr.heap fake.Call_neg_wrapped.2)
                  fake.Call_neg_wrapped.1 (-1) eq_refl eq_refl Hd)).
Defined.

(** [Code] and [IsCode] agree on the same error. *)
Lemma AsCode_of_Code_witness :
  let h := gerr.heap fake.Call_neg_wrapped.2 in
  let err := fake.Call_neg_wrapped.1 in
  gerr.heap_ok h = true ∧ gerr.valid h err = true
  ∧ (∃ o, o ∈ gerr.nodes h err ∧ gerr.Code o ≠ 0%Z)
  ∧ gerr.Code_of h err (-1) = gerr.Done 1000001%Z
  ∧ gerr.IsCode 1000001 h err = gerr.Done true.
Proof.
  assert (∃ o, o ∈ gerr.nodes (gerr.heap fake.Call_neg_wrapped.2)
                     fake.Call_neg_wrapped.1 ∧ gerr.Code o ≠ 0%Z) as Hnode.
  { exists (gerr.DefinedCodeError fake.ErrArgumentNeg None). split.
    - apply (list_elem_of_lookup_2 _ 1). reflexivity.
    - discriminate. }
  split; [reflexivity|]. split; [reflexivity|]. split; [exact Hnode|].
  split; [reflexivity|].
  exact (proj1 (proj2 (AsCode_of_Code (gerr.heap fake.Call_neg_wrapped.2)
    fake.Call_neg_wrapped.1 (-1) 1000001 eq_refl eq_refl Hnode eq_refl))).
Defined.

(** [New("")] in the state of the examples. *)
Lemma EMPTY_is_reachable_witness :
  let s := fake.Call_neg.2 in
  let r := New_call fake.format (new_msg (Some "")) s in
  gerr.heap_ok (gerr.heap s) = true
  ∧ gerr.valid (gerr.heap s) fake.Call_neg.1 = true
  ∧ has_text (Some "") = false
  ∧ gerr.String (gerr.heap r.2) r.1 = gerr.Done "<EMPTY>".
Proof.
  split; [reflexivity|]. split; [reflexivity|]. split; [reflexivity|].
  exact (proj1 (EMPTY_is_reachable fake.format (Some "") fake.Call_neg.1
                  fake.Call_neg.2 eq_refl eq_refl eq_refl)
           (new_msg (Some "")) (or_introl eq_refl)).
Defined.

(** [ErrArgumentZero::E(err)] on the error of [CheckArguments]. *)
Lemma E_cause_allocates_witness :
  let s := fake.CheckArguments.2 in
  let err := fake.CheckArguments.1 in
  let shared := gerr.E fake.ErrArgumentZero s in
  let r := gerr.E_cause fake.ErrArgumentZero err shared.2 in
  gerr.state_ok s = true ∧ gerr.valid (gerr.heap s) err = true
  ∧ r.1 ≠ shared.1
  ∧ gerr.As (gerr.Defined "ErrArgumentZero") (gerr.heap r.2) r.1
    = gerr.Done r.1.
Proof.
  split; [reflexivity|]. split; [reflexivity|].
  destruct (E_cause_allocates fake.ErrArgumentZero fake.ErrArgumentNeg
              fake.CheckArguments.1 fake.CheckArguments.2 eq_refl eq_refl)
    as [(Hne & _ & HAs & _) _].
  split; [exact Hne|exact HAs].
Defined.

(** [As<ErrArgumentNeg>] on the error of [Call(-1)] under two wraps. *)
Lemma As_through_wraps_witness :
  let s := fake.Call_neg.2 in
  let err := fake.Call_neg.1 in
  let ws := [gerr.wrap_msg (Some "inner"); gerr.wrap_code 7] in
  let r := Wrap_all fake.format ws err s in
  gerr.heap_ok (gerr.heap s) = true ∧ gerr.valid (gerr.heap s) err = true
  ∧ gerr.As (gerr.Defined "ErrArgumentNeg") (gerr.heap r.2) r.1
    = gerr.As (gerr.Defined "ErrArgumentNeg") (gerr.heap s) err.
Proof.
  split; [reflexivity|]. split; [reflexivity|].
  exact (proj1 (proj1 (As_through_wraps fake.format "ErrArgumentNeg"
    [gerr.wrap_msg (Some "inner"); gerr.wrap_code 7]
    fake.Call_neg.1 fake.Call_neg.2 fake.ErrLERandNum1
    (fake.mkLERandErrorContext 1 2) eq_refl eq_refl))).
Defined.

(** [As<IError>] on the wrapped error of [Call(-1)]. *)
Lemma As_outermost_witness :
  let h := gerr.heap fake.Call_neg_wrapped.2 in
  let err := fake.Call_neg_wrapped.1 in
  gerr.valid h err = true
  ∧ gerr.As gerr.IError_base h err = gerr.Done err.
Proof.
  split; [reflexivity|].
  exact (proj1 (As_outermost gerr.IError_base
                  (gerr.heap fake.Call_neg_wrapped.2)
                  fake.Call_neg_wrapped.1 eq_refl)).
Defined.

(** The chain of the wrapped error of [Call(-1)]. *)
Lemma chain_acyclic_witness :
  let h := gerr.heap fake.Call_neg_wrapped.2 in
  let err := fake.Call_neg_wrapped.1 in
  gerr.heap_ok h = true ∧ gerr.valid h err = true
  ∧ NoDup (gerr.chain h err)
  ∧ head (gerr.chain h err) = err.
Proof.
  split; [reflexivity|]. split; [reflexivity|].
  destruct (chain_acyclic (gerr.heap fake.Call_neg_wrapped.2)
              fake.Call_neg_wrapped.1 eq_refl eq_refl)
    as (_ & Hnodup & Hhead & _).
  split; [exact Hnodup|exact Hhead].
Defined.

(** [New("x")], [Wrap(err, 5)] on its result, then [ErrArgumentZero::E()],
    from the initial state. *)
Lemma reachable_state_ok_witness :
  let cs := [gerr.call_New (Some "x");
             gerr.call_Wrap (Some 0) (gerr.wrap_code 5)] in
  let s := gerr.construct_all fake.format cs fake.init in
  let r := gerr.construct fake.format (gerr.call_E fake.ErrArgumentZero) s in
  gerr.args_valid fake.format cs fake.init
  ∧ gerr.state_ok s = true
  ∧ gerr.live (gerr.heap r.2) r.1.
Proof.
  assert (gerr.args_valid fake.format
            [gerr.call_New (Some "x");
             gerr.call_Wrap (Some 0) (gerr.wrap_code 5)] fake.init) as Hargs.
  { split; [constructor|]. split; [|exact I].
    constructor; [|constructor]. vm_compute. constructor. }
  split; [exact Hargs|].
  destruct (reachable_state_ok fake.format _
              (gerr.call_E fake.ErrArgumentZero) Hargs) as (Hok & Hlive & _).
  split; [exact Hok|exact Hlive].
Defined.

(** A [Try<int>] holding 7, then assigned an error. *)
Lemma Try_reachable_one_side_witness :
  let t := mylib.Assign_error 0%Z (mylib.Try_value 7%Z) (Some 0) in
  Try_reachable 0%Z t
  ∧ mylib.IsFailure t = negb (mylib.IsSuccess t)
  ∧ (mylib.IsFailure t = true → mylib.Value t = 0%Z).
Proof.
  assert (Try_reachable 0%Z
            (mylib.Assign_error 0%Z (mylib.Try_value 7%Z) (Some 0))) as Hr
    by apply reach_Assign_error, reach_Try_value.
  split; [exact Hr|].
  destruct (Try_reachable_one_side 0%Z _ Hr) as (H1 & _ & _ & H4).
  split; [exact H1|exact H4].
Defined.

(** A failed [Try<int>] assigned the null error. *)
Lemma Assign_error_on_failure_witness :
  let t := mylib.Try_error 0%Z (Some 0) in
  let t' := mylib.Assign_error 0%Z t None in
  mylib.IsFailure t = true
  ∧ mylib.Value t' = mylib.Value t
  ∧ (mylib.IsSuccess t' = true ↔ (None : gerr.Error) = None).
Proof.
  split; [reflexivity|].
  destruct (Assign_error_on_failure 0%Z (mylib.Try_error 0%Z (Some 0)) None
              eq_refl) as (H1 & _ & H3 & _).
  split; [exact H1|exact H3].
Defined.

(** [Call(3)] with the numbers 2 and 3 drawn, in the initial state. *)
Lemma Call_classification_witness :
  let r := MyFakeAPI.Call fake.format 2 3 3 fake.init in
  MyFakeAPI.state_ok fake.init = true
  ∧ MyFakeAPI.state_ok r.2 = true
  ∧ gerr.Code_of_default (gerr.heap r.2) r.1 = gerr.Done 1000002%Z
  ∧ gerr.IsCode 123 (gerr.heap r.2) r.1 = gerr.Done false.
Proof.
  split; [reflexivity|].
  destruct (Call_classification fake.format 2 3 3 fake.init eq_refl)
    as (Hok & _ & HCode & HIsCode & _).
  split; [exact Hok|]. split; [exact HCode|exact HIsCode].
Defined.

(** [SafeDiv(7, 2)] in the initial state. *)
Lemma SafeDiv_fails_on_zero_witness :
  simpletry.is_int 7 ∧ simpletry.is_int 2
  ∧ simpletry.SafeDiv 7 2 fake.init
    = simpletry.Defined_value (mylib.Try_value 3%Z, fake.init)
  ∧ simpletry.is_int (Z.quot 7 2).
Proof.
  assert (simpletry.is_int 7) as H7
    by (unfold simpletry.is_int, simpletry.INT_MIN, simpletry.INT_MAX; lia).
  assert (simpletry.is_int 2) as H2
    by (unfold simpletry.is_int, simpletry.INT_MIN, simpletry.INT_MAX; lia).
  split; [exact H7|]. split; [exact H2|].
  destruct (SafeDiv_fails_on_zero 7 2 fake.init H7 H2) as (_ & _ & H).
  destruct H as (Heq & _ & _ & Hint & _);
    [lia|intros [_ ?]; lia|].
  split; [exact Heq|exact Hint].
Defined.

(** ** Constructions and the exceptions of [fmt::format] *)



